(** * react-query-tut: key builder, resource client, query hooks and view logic

    A shallow embedding of the TypeScript sources

      - [src/hooks/queries/queryKeys.ts]   (the Key Builder)
      - [src/hooks/queries/usePosts.ts]    (the Query Hooks)
      - [src/services/api.ts]              (the Resource Client)
      - [src/components/PostCard.tsx], [src/components/PostsList.tsx]

    JavaScript values are modelled by the inductive type [jsvalue]; objects
    are finite maps from property names to values, so two objects with the
    same properties are equal whatever the order the properties were written
    in.  Numbers are the integers: the identifiers and HTTP status codes this
    program handles are integers, and [NaN], the infinities and fractions are
    outside the model.  Strings are sequences of 8-bit code units.  The
    engine's [String.prototype.toLowerCase] is a parameter of the search
    ([PostsList.filteredPosts_with]); [toLowerCase] is that function on
    ASCII text and [PostsList.filteredPosts] is the search with it. *)

From Stdlib Require Import ZArith Ascii.
From stdpp Require Import gmap strings list pretty.

Open Scope Z_scope.

(* ===================================================================== *)
(** ** JavaScript values                                                  *)
(* ===================================================================== *)

#[warnings="-register-all"]
Inductive jsvalue : Type :=
  | JUndefined
  | JNull
  | JBool (b : bool)
  | JNum (n : Z)
  | JStr (s : string)
  | JArr (items : list jsvalue)
  | JObj (fields : gmap string jsvalue).

(** [!!v]: the boolean a value coerces to. *)
Definition truthy (v : jsvalue) : bool :=
  match v with
  | JUndefined | JNull => false
  | JBool b => b
  | JNum n => negb (n =? 0)
  | JStr s => negb (String.eqb s "")
  | JArr _ | JObj _ => true
  end.

(** [number | null] as the state hook of PostsList holds it. *)
Definition of_nullable (o : option Z) : jsvalue :=
  match o with
  | None => JNull
  | Some n => JNum n
  end.

(** [o.p] on an object literal: [undefined] when the property is absent. *)
Definition get_prop (o : gmap string jsvalue) (p : string) : jsvalue :=
  default JUndefined (o !! p).

(** Template-literal interpolation [`${v}`]; the program interpolates
    identifiers and status codes.  An array joins its elements with commas,
    [null] and [undefined] elements counting as empty. *)
Fixpoint to_string (v : jsvalue) : string :=
  match v with
  | JUndefined => "undefined"
  | JNull => "null"
  | JBool true => "true"
  | JBool false => "false"
  | JNum n => pretty n
  | JStr s => s
  | JArr items =>
      String.concat ","
        (map (fun item =>
                match item with
                | JUndefined | JNull => ""
                | _ => to_string item
                end) items)
  | JObj _ => "[object Object]"
  end.

(* ===================================================================== *)
(** ** The Key Builder: src/hooks/queries/queryKeys.ts                    *)
(* ===================================================================== *)

(** A query key is an array of segments. *)
Definition QueryKey : Type := list jsvalue.

(** The parameters typed [number] in the source range over [jsvalue] here:
    the type is erased at run time and PostsList passes [selectedPostId!],
    which is [null] while no post is selected. *)
Module queryKeys.

Module posts.
Definition all : QueryKey := [JStr "posts"].

Definition lists (_ : unit) : QueryKey := all ++ [JStr "list"].

Definition list (filters : gmap string jsvalue) : QueryKey :=
  lists tt ++ [JObj {[ "filters" := JObj filters ]}].

Definition details (_ : unit) : QueryKey := all ++ [JStr "detail"].

Definition detail (id : jsvalue) : QueryKey := details tt ++ [id].

Definition comments (postId : jsvalue) : QueryKey :=
  detail postId ++ [JStr "comments"].
End posts.

Module users.
Definition all : QueryKey := [JStr "users"].

Definition lists (_ : unit) : QueryKey := all ++ [JStr "list"].

Definition details (_ : unit) : QueryKey := all ++ [JStr "detail"].

Definition detail (id : jsvalue) : QueryKey := details tt ++ [id].
End users.

End queryKeys.

(** Every way of building a key in the [posts] namespace, and the key built. *)
Inductive posts_call : Type :=
  | PostsAll
  | PostsLists
  | PostsList (filters : gmap string jsvalue)
  | PostsDetails
  | PostsDetail (id : jsvalue)
  | PostsComments (postId : jsvalue).

Definition posts_key (c : posts_call) : QueryKey :=
  match c with
  | PostsAll => queryKeys.posts.all
  | PostsLists => queryKeys.posts.lists tt
  | PostsList filters => queryKeys.posts.list filters
  | PostsDetails => queryKeys.posts.details tt
  | PostsDetail id => queryKeys.posts.detail id
  | PostsComments postId => queryKeys.posts.comments postId
  end.

(** The same for the [users] namespace. *)
Inductive users_call : Type :=
  | UsersAll
  | UsersLists
  | UsersDetails
  | UsersDetail (id : jsvalue).

Definition users_key (c : users_call) : QueryKey :=
  match c with
  | UsersAll => queryKeys.users.all
  | UsersLists => queryKeys.users.lists tt
  | UsersDetails => queryKeys.users.details tt
  | UsersDetail id => queryKeys.users.detail id
  end.

(** [child] extends [parent]: [parent] is a prefix of [child]. *)
Definition extends (child parent : QueryKey) : Prop :=
  parent `prefix_of` child.

(** [child] is a strict extension of [parent]: a prefix, with at least one
    more segment. *)
Definition strictly_extends (child parent : QueryKey) : Prop :=
  ∃ suffix : QueryKey, suffix ≠ [] ∧ child = parent ++ suffix.

(** Modelled from the spec: the key matching of cache invalidation, which is
    the caching library's and not in the repository.  Invalidating [key]
    invalidates every cache entry whose key is [key] or extends it. *)
Definition invalidates (key entry_key : QueryKey) : Prop :=
  extends entry_key key.

(* ===================================================================== *)
(** ** The Resource Client: src/services/api.ts                           *)
(* ===================================================================== *)

(** How a promise settles. *)
Inductive Settled : Type :=
  | Fulfilled (value : jsvalue)
  | Rejected (reason : jsvalue).

(** [new Error(message)]: an object whose only own data property is
    [message] ([name] and [stack] live on the prototype and the engine). *)
Definition new_Error (message : string) : jsvalue :=
  JObj {[ "message" := JStr message ]}.

(** [v.p] for a value that may or may not be an object. *)
Definition prop (v : jsvalue) (p : string) : jsvalue :=
  match v with
  | JObj o => get_prop o p
  | _ => JUndefined
  end.

(** Modelled from the spec: the shape of a Post, declared in
    src/services/types.ts, which is not among the sources:
    [{ id: integer, userId: integer, title: string, body: string }]. *)
Definition is_Post (v : jsvalue) : bool :=
  match v with
  | JObj o =>
      match o !! "id", o !! "userId", o !! "title", o !! "body" with
      | Some (JNum _), Some (JNum _), Some (JStr _), Some (JStr _) => true
      | _, _, _, _ => false
      end
  | _ => false
  end.

Module api.

(** What the browser's [fetch] hands back: the status code and how
    [response.json()] settles (the parsed body, or the parser's error). *)
Record Response : Type := {
  status : Z;
  json : Settled
}.

(** [response.ok]: the status is in the range 200-299. *)
Definition ok (response : Response) : bool :=
  (200 <=? status response) && (status response <=? 299).

(** The outcome of [await fetch(url)]: a response, whatever its status, or
    a rejection when the request could not be made at all. *)
Inductive FetchResult : Type :=
  | NetworkFailure (reason : jsvalue)
  | Responded (response : Response).

(** The transport collaborator: how the network answers a GET of a URL. *)
Definition Transport : Type := string → FetchResult.

Definition BASE_URL : string := "https://jsonplaceholder.typicode.com".

Definition fetchFromAPI (fetch : Transport) (endpoint : string) : Settled :=
  match fetch (BASE_URL +:+ endpoint) with
  | NetworkFailure reason => Rejected reason
  | Responded response =>
      if negb (ok response)
      then Rejected
             (new_Error ("HTTP error! status: " +:+ pretty (status response)))
      else json response
  end.

Module postsAPI.
Definition getPosts (fetch : Transport) : Settled :=
  fetchFromAPI fetch "/posts".

Definition getPost (fetch : Transport) (id : jsvalue) : Settled :=
  fetchFromAPI fetch ("/posts/" +:+ to_string id).

Definition getPostComments (fetch : Transport) (postId : jsvalue) : Settled :=
  fetchFromAPI fetch ("/posts/" +:+ to_string postId +:+ "/comments").
End postsAPI.

Module usersAPI.
Definition getUsers (fetch : Transport) : Settled :=
  fetchFromAPI fetch "/users".

Definition getUser (fetch : Transport) (id : jsvalue) : Settled :=
  fetchFromAPI fetch ("/users/" +:+ to_string id).
End usersAPI.

End api.

(* ===================================================================== *)
(** ** The orchestration layer                                            *)
(* ===================================================================== *)

(** The object a hook hands to [useQuery]: the key, the producer, and the
    remaining options as an object ([enabled] among them). *)
Record UseQueryOptions : Type := {
  queryKey : QueryKey;
  queryFn : api.Transport → Settled;
  options : gmap string jsvalue
}.

(** Modelled from the spec: [useQuery] and the cache behind it belong to the
    caching library (@tanstack/react-query), which is not in the repository.
    The model follows sections 3, 4.3 and 9 of the spec: one cache entry per
    key with the state machine
    [empty → fetching → fresh | error], [fresh → stale → fetching],
    [error → fetching]; a precondition evaluated before each fetch attempt
    with the three answers skip, fetch and already-fresh; at most one
    in-flight request per key; a bounded number of retries for retryable
    failures.  The time-to-live, the retry bound and the classification of
    failures are parameters, as the spec leaves them open. *)
Module Orchestration.

Inductive Status : Type :=
  | EmptyEntry
  | Fetching
  | Fresh
  | Stale
  | Errored.

Record CacheEntry : Type := {
  data : option jsvalue;
  status : Status;
  error : option jsvalue;
  lastUpdated : nat
}.

Record Config : Type := {
  staleTime : nat;
  retryLimit : nat;
  retryable : jsvalue → bool
}.

(** A cache entry together with the bookkeeping of its requests: how often
    the producer has been invoked for it, and how many attempts of the
    request in flight have failed. *)
Record QueryState : Type := {
  entry : CacheEntry;
  calls : nat;
  failureCount : nat
}.

(** The entry as it is created on the first request for a key. *)
Definition initial : QueryState :=
  {| entry := {| data := None; status := EmptyEntry; error := None;
                 lastUpdated := 0 |};
     calls := 0;
     failureCount := 0 |}.

(** Modelled from the spec: the [enabled] gate of the caching library.  The
    gate is off only when the [enabled] option is [false]; a query without
    the option runs. *)
Definition enabled_gate (opts : UseQueryOptions) : bool :=
  match options opts !! "enabled" with
  | Some (JBool false) => false
  | _ => true
  end.

Definition is_fresh (cfg : Config) (e : CacheEntry) (now : nat) : bool :=
  match status e with
  | Fresh => (now <? lastUpdated e + staleTime cfg)%nat
  | _ => false
  end.

(** Modelled from the spec: the precondition of section 9, evaluated
  before each fetch attempt, with its three answers. *)
Inductive Decision : Type :=
  | SkipFetch
  | DoFetch
  | AlreadyFresh.

Definition precondition (cfg : Config) (enabled : bool) (e : CacheEntry)
    (now : nat) : Decision :=
  if negb enabled then SkipFetch
  else if is_fresh cfg e now then AlreadyFresh
  else DoFetch.

Definition with_status (s : Status) (e : CacheEntry) : CacheEntry :=
  {| data := data e; status := s; error := error e;
     lastUpdated := lastUpdated e |}.

(** Issue a request: the producer is invoked once. *)
Definition start_fetch (st : QueryState) : QueryState :=
  {| entry := with_status Fetching (entry st);
     calls := S (calls st);
     failureCount := 0 |}.

Inductive Event : Type :=
  | Access                               (* a consumer reads the query   *)
  | Refetch                              (* a consumer asks for a refetch *)
  | Settle (fetch : api.Transport)       (* the request in flight ends,
                                            the network answering [fetch] *)
  | Invalidate.                          (* the entry is invalidated     *)

(** Modelled from the spec: the transitions of a cache entry (section 4.3).
  A read starts a request unless one is in flight, the gate is off, the
  data is fresh or a failure has been surfaced; a refetch request starts
  one even when the data is fresh; a request that settles stores the value,
  or is issued again while retries remain, or stores the failure; an
  invalidation makes fresh data stale. *)
Definition step (cfg : Config) (opts : UseQueryOptions) (now : nat)
    (ev : Event) (st : QueryState) : QueryState :=
  let e := entry st in
  match ev with
  | Access =>
      match status e with
      | Fetching | Errored => st
      | _ =>
          match precondition cfg (enabled_gate opts) e now with
          | DoFetch => start_fetch st
          | SkipFetch | AlreadyFresh => st
          end
      end
  | Refetch =>
      match status e with
      | Fetching => st
      | _ =>
          match precondition cfg (enabled_gate opts) e now with
          | SkipFetch => st
          | DoFetch | AlreadyFresh => start_fetch st
          end
      end
  | Settle fetch =>
      match status e with
      | Fetching =>
          match queryFn opts fetch with
          | Fulfilled value =>
              {| entry := {| data := Some value; status := Fresh;
                             error := None; lastUpdated := now |};
                 calls := calls st;
                 failureCount := 0 |}
          | Rejected reason =>
              if enabled_gate opts && retryable cfg reason
                 && (failureCount st <? retryLimit cfg)%nat
              then {| entry := e;
                      calls := S (calls st);
                      failureCount := S (failureCount st) |}
              else {| entry := {| data := data e; status := Errored;
                                  error := Some reason;
                                  lastUpdated := lastUpdated e |};
                      calls := calls st;
                      failureCount := S (failureCount st) |}
          end
      | _ => st
      end
  | Invalidate =>
      match status e with
      | Fresh =>
          {| entry := with_status Stale e; calls := calls st;
             failureCount := failureCount st |}
      | _ => st
      end
  end.

(** A history of events, each with the time it happens at. *)
Fixpoint run (cfg : Config) (opts : UseQueryOptions)
    (events : list (nat * Event)) (st : QueryState) : QueryState :=
  match events with
  | [] => st
  | (now, ev) :: rest => run cfg opts rest (step cfg opts now ev st)
  end.

(** Modelled from the spec: what a consumer is handed,
    [{data, isLoading, isError, error}] (section 6). *)
Record QueryResult : Type := {
  result_data : option jsvalue;
  isLoading : bool;
  isError : bool;
  result_error : option jsvalue
}.

Definition observe (st : QueryState) : QueryResult :=
  let e := entry st in
  {| result_data := data e;
     isLoading := match status e with Fetching => true | _ => false end;
     isError := match status e with Errored => true | _ => false end;
     result_error := error e |}.

(** "no data, no error, not loading". *)
Definition idle_result : QueryResult :=
  {| result_data := None; isLoading := false; isError := false;
     result_error := None |}.

(** Modelled from the spec: [useQuery] of the caching library.  One read of
    the query by a consumer: the result handed back, and the state the read
    leaves behind. *)
Definition useQuery (opts : UseQueryOptions) (cfg : Config) (now : nat)
    (st : QueryState) : QueryResult * QueryState :=
  let st' := step cfg opts now Access st in
  (observe st', st').

End Orchestration.

(* ===================================================================== *)
(** ** The Query Hooks: src/hooks/queries/usePosts.ts                     *)
(* ===================================================================== *)

Module hooks.

Definition usePosts_options : UseQueryOptions :=
  {| queryKey := queryKeys.posts.lists tt;
     queryFn := api.postsAPI.getPosts;
     options := ∅ |}.

(** Get all posts *)
Definition usePosts :=
  Orchestration.useQuery usePosts_options.

(** The [options] object a caller passes to [usePost].  Its declared type,
    [Omit<UseQueryOptions<Post>, 'queryKey' | 'queryFn'>], leaves the key
    and the producer out, but the type is erased at run time and the spread
    copies every property the object holds.  A key and a function are not
    plain values, so the object is held in three parts: its [queryKey]
    property when it has one, its [queryFn] property when it has one, and
    its other properties. *)
Record CallerOptions : Type := {
  given_queryKey : option QueryKey;
  given_queryFn : option (api.Transport → Settled);
  given_options : gmap string jsvalue
}.

(** The object of a caller that passes plain options only, as PostsList
    does with [{ enabled: !!selectedPostId }]. *)
Definition plain_options (given : gmap string jsvalue) : CallerOptions :=
  {| given_queryKey := None; given_queryFn := None; given_options := given |}.

(** The object literal of [usePost]: [queryKey], [queryFn] and
    [enabled: !!id] first, then the caller's options spread over them (a
    later property wins, the key and the producer included); an absent
    [options] argument spreads nothing. *)
Definition usePost_options (id : jsvalue) (opts : option CallerOptions)
    : UseQueryOptions :=
  {| queryKey :=
       default (queryKeys.posts.detail id) (opts ≫= given_queryKey);
     queryFn :=
       default (fun fetch => api.postsAPI.getPost fetch id)
         (opts ≫= given_queryFn);
     options :=
       default ∅ (given_options <$> opts)
       ∪ {[ "enabled" := JBool (truthy id) ]} |}.

(** Get single post *)
Definition usePost (id : jsvalue) (opts : option CallerOptions) :=
  Orchestration.useQuery (usePost_options id opts).

Definition usePostComments_options (postId : jsvalue) : UseQueryOptions :=
  {| queryKey := queryKeys.posts.comments postId;
     queryFn := fun fetch => api.postsAPI.getPostComments fetch postId;
     options := {[ "enabled" := JBool (truthy postId) ]} |}.

(** Get post comments *)
Definition usePostComments (postId : jsvalue) :=
  Orchestration.useQuery (usePostComments_options postId).

End hooks.

(* ===================================================================== *)
(** ** Strings: [toLowerCase] and [includes]                              *)
(* ===================================================================== *)

Definition is_upper (c : ascii) : bool :=
  (65 <=? nat_of_ascii c)%nat && (nat_of_ascii c <=? 90)%nat.

Definition lower_ascii (c : ascii) : ascii :=
  if is_upper c then ascii_of_nat (nat_of_ascii c + 32) else c.

(** Lower-casing of ASCII text: A-Z go to a-z, every other code unit stays
    as it is. *)
Fixpoint toLowerCase (s : string) : string :=
  match s with
  | EmptyString => EmptyString
  | String c s' => String (lower_ascii c) (toLowerCase s')
  end.

(** A string of ASCII characters: every code unit is below 128. *)
Fixpoint is_ascii (s : string) : bool :=
  match s with
  | EmptyString => true
  | String c s' => (nat_of_ascii c <? 128)%nat && is_ascii s'
  end.

(** [String.prototype.toLowerCase] belongs to the engine, not to the
    repository: the search below takes it as a parameter [lower].  Of the
    engine's function the statements use at most this: on a string of ASCII
    characters it is the ASCII lower-casing (the Unicode case conversion
    has no other mapping and no context rule for these characters). *)
Definition ascii_engine (lower : string → string) : Prop :=
  ∀ s : string, is_ascii s = true → lower s = toLowerCase s.

(** [s.includes(searchString)]: [searchString] starts at some position of
    [s]. *)
Fixpoint includes (s searchString : string) : bool :=
  String.prefix searchString s
  || match s with
     | EmptyString => false
     | String _ s' => includes s' searchString
     end.

(* ===================================================================== *)
(** ** The View Layer: PostCard.tsx and PostsList.tsx                     *)
(* ===================================================================== *)

(** Modelled from the spec: the type [Post], declared in
    src/services/types.ts, which is not among the sources:
    [{ id: integer, userId: integer, title: string, body: string }]. *)
Module types.
Record Post : Type := {
  id : Z;
  userId : Z;
  title : string;
  body : string
}.
End types.

(** Rendered output: text nodes and elements with a class name, an optional
    click handler and children.  A handler is the function run on a click;
    [R] is what running it yields. *)
#[warnings="-register-all"]
Inductive vnode (R : Type) : Type :=
  | VText (text : string)
  | VElem (tag : string) (className : string)
      (onClick : option (unit → option R)) (children : list (vnode R)).

Arguments VText {R} text.
Arguments VElem {R} tag className onClick children.

Module PostCard.

Record PostCardProps (R : Type) : Type := {
  post : types.Post;
  onClick : option (types.Post → R);
  isSelected : option bool
}.

Arguments post {R} _.
Arguments onClick {R} _.
Arguments isSelected {R} _.

(** The component destructures [post] and [onClick] only. *)
Definition PostCard {R : Type} (props : PostCardProps R) : vnode R :=
  let post := post props in
  let onClick := onClick props in
  VElem "div"
    "cursor-pointer rounded-lg border p-4 transition-shadow hover:shadow-md"
    (Some (fun _ => (fun f => f post) <$> onClick))
    [ VElem "h3" "mb-2 text-lg font-semibold capitalize" None
        [VText (types.title post)];
      VElem "p" "line-clamp-3 text-gray-600" None
        [VText (types.body post)];
      VElem "div" "mt-2 text-sm text-gray-500" None
        [VText "User ID: "; VText (pretty (types.userId post));
         VText " | Post ID: "; VText (pretty (types.id post))] ].

End PostCard.

Module PostsList.

(** Lines 30-35: the detail query of the selected post. *)
Definition selectedPost_query (selectedPostId : option Z) :=
  hooks.usePost (of_nullable selectedPostId)
    (Some (hooks.plain_options
             {[ "enabled" := JBool (truthy (of_nullable selectedPostId)) ]})).

Definition selectedPost_options (selectedPostId : option Z)
    : UseQueryOptions :=
  hooks.usePost_options (of_nullable selectedPostId)
    (Some (hooks.plain_options
             {[ "enabled" := JBool (truthy (of_nullable selectedPostId)) ]})).

Definition matches (searchTerm : string) (post : types.Post) : bool :=
  includes (toLowerCase (types.title post)) (toLowerCase searchTerm)
  || includes (toLowerCase (types.body post)) (toLowerCase searchTerm).

(** The test of the filter, with the engine's [toLowerCase] as [lower]. *)
Definition matches_with (lower : string → string) (searchTerm : string)
    (post : types.Post) : bool :=
  includes (lower (types.title post)) (lower searchTerm)
  || includes (lower (types.body post)) (lower searchTerm).

(** Filter posts based on search term, with the engine's [toLowerCase] as
    [lower]; [posts] is [undefined] until the list query has data. *)
Definition filteredPosts_with (lower : string → string)
    (posts : option (list types.Post)) (searchTerm : string)
    : list types.Post :=
  match posts with
  | Some posts => List.filter (matches_with lower searchTerm) posts
  | None => []
  end.

(** The filter on ASCII text: [filteredPosts_with] with the ASCII
    lower-casing. *)
Definition filteredPosts (posts : option (list types.Post))
    (searchTerm : string) : list types.Post :=
  match posts with
  | Some posts => List.filter (matches searchTerm) posts
  | None => []
  end.

(** The value [handlePostClick] hands to [setSelectedPostId]. *)
Definition handlePostClick (selectedPostId : option Z) (post : types.Post)
    : option Z :=
  if decide (selectedPostId = Some (types.id post))
  then None (* Close if same post clicked *)
  else Some (types.id post).

(** Lines 272-276: the props of the card of [post]. *)
Definition card_props (selectedPostId : option Z) (post : types.Post)
    : PostCard.PostCardProps (option Z) :=
  {| PostCard.post := post;
     PostCard.onClick := Some (handlePostClick selectedPostId);
     PostCard.isSelected :=
       Some (bool_decide (selectedPostId = Some (types.id post))) |}.

(** A click on the card of [post]: the next value of [selectedPostId]. *)
Definition click (selectedPostId : option Z) (post : types.Post)
    : option Z :=
  match PostCard.PostCard (card_props selectedPostId post) with
  | VElem _ _ (Some handler) _ =>
      match handler tt with
      | Some next => next
      | None => selectedPostId
      end
  | _ => selectedPostId
  end.

(** [viewMode]: ['grid' | 'list']. *)
Inductive ViewMode : Type :=
  | ViewGrid
  | ViewList.

Definition is_grid (viewMode : ViewMode) : bool :=
  match viewMode with ViewGrid => true | ViewList => false end.

Definition is_list (viewMode : ViewMode) : bool :=
  match viewMode with ViewGrid => false | ViewList => true end.

(** [Array.prototype.findIndex]: the index of the first element that passes
    the test, -1 when none does. *)
Fixpoint findIndex {A : Type} (test : A → bool) (items : list A) : Z :=
  match items with
  | [] => -1
  | item :: rest =>
      if test item then 0
      else
        let index := findIndex test rest in
        if index <? 0 then -1 else index + 1
  end.

(** Find selected post index for inline positioning *)
Definition selectedPostIndex (selectedPostId : option Z)
    (filteredPosts : list types.Post) : Z :=
  if truthy (of_nullable selectedPostId)
  then findIndex
         (fun post => bool_decide (Some (types.id post) = selectedPostId))
         filteredPosts
  else -1.

(** Line 264, in the main view (the return of lines 160-299): whether the
    inline detail is rendered above the card at [index] of the filtered
    list. *)
Definition inline_detail_shown (viewMode : ViewMode)
    (selectedPostId : option Z) (filteredPosts : list types.Post)
    (index : nat) : bool :=
  is_list viewMode
  && (selectedPostIndex selectedPostId filteredPosts =? Z.of_nat index).

(** The value [handleKeyDown] leaves in [selectedPostId] when a key is
    pressed. *)
Definition handleKeyDown (selectedPostId : option Z) (viewMode : ViewMode)
    (key : string) : option Z :=
  if String.eqb key "Escape" && truthy (of_nullable selectedPostId)
     && is_grid viewMode
  then None
  else selectedPostId.

(** Lines 66-71: the value the effect leaves in
    [document.body.style.overflow]. *)
Definition body_overflow (selectedPostId : option Z) (viewMode : ViewMode)
    : string :=
  if truthy (of_nullable selectedPostId) && is_grid viewMode
  then "hidden"
  else "unset".

(** What React puts on the page for the value of a JSX expression slot:
    nothing for [false] and [null], the digits for a number, the element
    otherwise. *)
Inductive Slot : Type :=
  | SlotNothing
  | SlotText (text : string)
  | SlotElement.

(** Lines 285-297, in the main view:
    [viewMode === 'grid' && selectedPostId && (popover)]. *)
Definition grid_popover (selectedPostId : option Z) (viewMode : ViewMode)
    : Slot :=
  if negb (is_grid viewMode) then SlotNothing
  else
    match selectedPostId with
    | None => SlotNothing
    | Some n => if truthy (JNum n) then SlotElement else SlotText (pretty n)
    end.

(** Post Detail Component.  A click on the close button hands [null] to
    [setSelectedPostId]. *)
Definition PostDetail (className : string) (selectedPostId : option Z)
    (selectedPost : option types.Post) (isLoadingPost : bool)
    : option (vnode (option Z)) :=
  if negb (truthy (of_nullable selectedPostId)) then None
  else
    Some
      (VElem "div"
         ("overflow-hidden rounded-xl border border-gray-200 bg-white shadow-lg "
            +:+ className)
         None
         [ VElem "div"
             "bg-gradient-to-r from-blue-600 to-indigo-600 px-6 py-4 text-white"
             None
             [ VElem "div" "flex items-center justify-between" None
                 [ VElem "h2" "text-xl font-semibold" None
                     [VText "Post Details"];
                   VElem "button"
                     "text-white transition-colors hover:text-gray-200"
                     (Some (fun _ => Some None))
                     [VElem "X" "h-6 w-6" None []] ] ];
           VElem "div" "p-6" None
             (if isLoadingPost then [VElem "LoadingSpinner" "" None []]
              else
                match selectedPost with
                | Some selectedPost =>
                    [ VElem "div" "" None
                        [ VElem "h3"
                            "mb-4 text-2xl font-bold capitalize text-gray-900"
                            None
                            [VText (types.title selectedPost)];
                          VElem "p" "text-lg leading-relaxed text-gray-700"
                            None
                            [VText (types.body selectedPost)];
                          VElem "div"
                            "mt-6 flex items-center text-sm text-gray-500"
                            None
                            [ VElem "User" "mr-1 h-4 w-4" None [];
                              VElem "span" "" None
                                [VText "Author: User ";
                                 VText (pretty (types.userId selectedPost))];
                              VElem "span" "mx-3" None [VText "â€¢"];
                              VElem "span" "" None
                                [VText "Post ID: ";
                                 VText (pretty (types.id selectedPost))] ] ] ]
                | None => []
                end) ]).

(** Line 245, in the main view: the "No posts found" block replaces the
    cards. *)
Definition empty_state_shown (filteredPosts : list types.Post)
    (searchTerm : string) : bool :=
  (length filteredPosts =? 0)%nat && truthy (JStr searchTerm).

(** The double quote character of the texts below. *)
Definition dquote : string := String (ascii_of_nat 34) EmptyString.

(** Lines 226-237, in the main view: the text children of the search
    results line, absent while the search term is empty. *)
Definition results_info (filteredPosts : list types.Post)
    (searchTerm : string) : option (list string) :=
  if truthy (JStr searchTerm)
  then
    Some
      (if (length filteredPosts =? 0)%nat
       then ["No posts found for " +:+ dquote; searchTerm; dquote]
       else ["Found "; pretty (length filteredPosts); " post";
             if negb (length filteredPosts =? 1)%nat then "s" else "";
             " for " +:+ dquote; searchTerm; dquote])
  else None.

(** Lines 123-158: what the component returns.  While the posts query is
    loading it returns the loading screen, when the query is in error the
    error screen, and the main view only otherwise. *)
Inductive Screen : Type :=
  | LoadingScreen
  | ErrorScreen
  | MainView.

Definition screen (isLoading isError : bool) : Screen :=
  if isLoading then LoadingScreen
  else if isError then ErrorScreen
  else MainView.

(** What is on the page: the parts of the main view when the main view is
    returned, none of them on the loading and error screens. *)
Definition page_inline_detail_shown (isLoading isError : bool)
    (viewMode : ViewMode) (selectedPostId : option Z)
    (filteredPosts : list types.Post) (index : nat) : bool :=
  match screen isLoading isError with
  | MainView =>
      inline_detail_shown viewMode selectedPostId filteredPosts index
  | LoadingScreen | ErrorScreen => false
  end.

Definition page_grid_popover (isLoading isError : bool)
    (selectedPostId : option Z) (viewMode : ViewMode) : Slot :=
  match screen isLoading isError with
  | MainView => grid_popover selectedPostId viewMode
  | LoadingScreen | ErrorScreen => SlotNothing
  end.

Definition page_empty_state_shown (isLoading isError : bool)
    (filteredPosts : list types.Post) (searchTerm : string) : bool :=
  match screen isLoading isError with
  | MainView => empty_state_shown filteredPosts searchTerm
  | LoadingScreen | ErrorScreen => false
  end.

Definition page_results_info (isLoading isError : bool)
    (filteredPosts : list types.Post) (searchTerm : string)
    : option (list string) :=
  match screen isLoading isError with
  | MainView => results_info filteredPosts searchTerm
  | LoadingScreen | ErrorScreen => None
  end.

End PostsList.

(** The results of the click handlers found in a rendered tree, the
    outermost first. *)
Fixpoint click_results {R : Type} (node : vnode R) : list (option R) :=
  match node with
  | VText _ => []
  | VElem _ _ onClick children =>
      match onClick with
      | Some handler => [handler tt]
      | None => []
      end
      ++ concat (map click_results children)
  end.

(** The three ways the hooks of usePosts.ts are called, and the object each
    hands to [useQuery]. *)
Inductive hook_call : Type :=
  | CallUsePosts
  | CallUsePost (id : jsvalue) (opts : option hooks.CallerOptions)
  | CallUsePostComments (postId : jsvalue).

Definition hook_options (call : hook_call) : UseQueryOptions :=
  match call with
  | CallUsePosts => hooks.usePosts_options
  | CallUsePost id opts => hooks.usePost_options id opts
  | CallUsePostComments postId => hooks.usePostComments_options postId
  end.

(** The call passes neither [queryKey] nor [queryFn] among its options, as
    the declared type of [options] demands. *)
Definition within_declared_type (call : hook_call) : Prop :=
  match call with
  | CallUsePost _ (Some given) =>
      hooks.given_queryKey given = None ∧ hooks.given_queryFn given = None
  | _ => True
  end.

(* ===================================================================== *)
(** ** The spec's words for the search                                    *)
(* ===================================================================== *)






(** The same with the case mapping of the engine, [lower]: [term] occurs in
    [s] when case is ignored, that is, the lower-cased [term] is a stretch
    of the lower-cased [s]. *)
Definition occurs_ignoring_case (lower : string → string) (term s : string)
    : Prop :=
  ∃ before after : string, lower s = before +:+ lower term +:+ after.

Definition search_hit_with (lower : string → string) (searchTerm : string)
    (post : types.Post) : Prop :=
  occurs_ignoring_case lower searchTerm (types.title post)
  ∨ occurs_ignoring_case lower searchTerm (types.body post).

(* ===================================================================== *)
(** ** Concrete settings used in the examples                             *)
(* ===================================================================== *)

(** The values the spec suggests: three retries of any failure, a freshness
    window of five minutes (in seconds). *)
Definition example_config : Orchestration.Config :=
  {| Orchestration.staleTime := 300;
     Orchestration.retryLimit := 3;
     Orchestration.retryable := fun _ => true |}.

(** A network that answers every request the same way. *)
Definition always (answer : api.FetchResult) : api.Transport :=
  fun _ => answer.

(** The server answers every request with HTTP 500. *)
Definition server_error : api.Transport :=
  always (api.Responded {| api.status := 500; api.json := Fulfilled JNull |}).

(** The server answers every request with HTTP 200 and a JSON body that is
    not a Post: [{"foo": 1}]. *)
Definition wrong_shape : jsvalue := JObj {[ "foo" := JNum 1 ]}.

Definition wrong_shape_server : api.Transport :=
  always (api.Responded
            {| api.status := 200; api.json := Fulfilled wrong_shape |}).

(** A detail entry fetched at time 0 and not updated since. *)
Definition fetched_at_0 (value : jsvalue) : Orchestration.QueryState :=
  {| Orchestration.entry :=
       {| Orchestration.data := Some value;
          Orchestration.status := Orchestration.Fresh;
          Orchestration.error := None;
          Orchestration.lastUpdated := 0 |};
     Orchestration.calls := 1;
     Orchestration.failureCount := 0 |}.

Definition post1 : types.Post :=
  {| types.id := 1; types.userId := 1; types.title := "a"; types.body := "b" |}.

Definition post2 : types.Post :=
  {| types.id := 2; types.userId := 1; types.title := "Quis";
     types.body := "Est rerum TEMPORE" |}.

(* ===================================================================== *)
(** * The definitions on the examples of the sources                      *)
(* ===================================================================== *)

(** The keys listed in the header of queryKeys.ts. *)
Example posts_all_key : queryKeys.posts.all = [JStr "posts"].
Proof. reflexivity. Qed.

Example posts_lists_key :
  queryKeys.posts.lists tt = [JStr "posts"; JStr "list"].
Proof. reflexivity. Qed.

Example posts_list_key :
  queryKeys.posts.list {[ "userId" := JNum 1 ]}
  = [JStr "posts"; JStr "list";
     JObj {[ "filters" := JObj {[ "userId" := JNum 1 ]} ]}].
Proof. reflexivity. Qed.

Example posts_detail_key :
  queryKeys.posts.detail (JNum 5) = [JStr "posts"; JStr "detail"; JNum 5].
Proof. reflexivity. Qed.

Example posts_comments_key :
  queryKeys.posts.comments (JNum 5)
  = [JStr "posts"; JStr "detail"; JNum 5; JStr "comments"].
Proof. reflexivity. Qed.

Example users_detail_key :
  queryKeys.users.detail (JNum 2) = [JStr "users"; JStr "detail"; JNum 2].
Proof. reflexivity. Qed.

(** Filter objects are compared by value. *)
Example posts_list_key_by_value :
  queryKeys.posts.list {[ "userId" := JNum 1; "page" := JNum 2 ]}
  = queryKeys.posts.list {[ "page" := JNum 2; "userId" := JNum 1 ]}.
Proof. reflexivity. Qed.

(** The request of [getPost(7)] goes to [/posts/7]. *)
Example getPost_url :
  api.postsAPI.getPost
    (fun url =>
       if String.eqb url "https://jsonplaceholder.typicode.com/posts/7"
       then api.Responded {| api.status := 200; api.json := Fulfilled JNull |}
       else api.NetworkFailure JUndefined)
    (JNum 7)
  = Fulfilled JNull.
Proof. reflexivity. Qed.

Example getPosts_404 :
  api.postsAPI.getPosts
    (always (api.Responded {| api.status := 404; api.json := Fulfilled JNull |}))
  = Rejected (new_Error "HTTP error! status: 404").
Proof. reflexivity. Qed.

(** The search of the spec's scenario, and a search that differs in case. *)
Example search_a :
  PostsList.filteredPosts (Some [post1; post2]) "a" = [post1].
Proof. reflexivity. Qed.

Example search_tempore :
  PostsList.filteredPosts (Some [post1; post2]) "tempore" = [post2].
Proof. reflexivity. Qed.

Example search_upper :
  PostsList.filteredPosts (Some [post1; post2]) "QUIS" = [post2].
Proof. reflexivity. Qed.

(** A first read of the posts list, answered with 200, then read again
    within the freshness window: one request in all. *)
Example posts_read_twice :
  Orchestration.calls
    (Orchestration.run example_config hooks.usePosts_options
       [(0%nat, Orchestration.Access);
        (1%nat, Orchestration.Settle
                  (always (api.Responded {| api.status := 200;
                                            api.json := Fulfilled (JArr []) |})));
        (2%nat, Orchestration.Access)]
       Orchestration.initial)
  = 1%nat.
Proof. reflexivity. Qed.

(* ===================================================================== *)
(** * Properties of the Key Builder                                       *)
(* ===================================================================== *)

Section key_lemmas.
  Implicit Types child parent key : QueryKey.

Lemma strictly_extends_snoc parent (segment : jsvalue) :
  strictly_extends (parent ++ [segment]) parent.
Proof. exists [segment]. split; [discriminate | reflexivity]. Qed.

(** A strict extension is a prefix relationship between different keys. *)
Lemma strictly_extends_spec child parent :
  strictly_extends child parent ↔ extends child parent ∧ child ≠ parent.
Proof.
  unfold strictly_extends, extends. split.
  - intros (suffix & Hne & ->). split; [by exists suffix |].
    intros Heq. apply Hne.
    apply (f_equal length) in Heq. rewrite length_app in Heq.
    destruct suffix; [done | simpl in Heq; lia].
  - intros [[suffix ->] Hne]. exists suffix. split; [| done].
    intros ->. apply Hne. by rewrite app_nil_r.
Qed.

(** Invalidating a key reaches every key that strictly extends it. *)
Lemma strictly_extends_invalidates child parent :
  strictly_extends child parent → invalidates parent child.
Proof. intros H. by apply strictly_extends_spec in H as [H _]. Qed.

(** Keys whose first segments differ are not prefixes of one another. *)
Lemma extends_head child parent (segment : jsvalue) :
  extends child parent → head parent = Some segment →
  head child = Some segment.
Proof.
  intros [suffix ->] Hhead. by destruct parent.
Qed.

Lemma posts_key_head (c : posts_call) : head (posts_key c) = Some (JStr "posts").
Proof. by destruct c. Qed.

Lemma users_key_head (c : users_call) : head (users_key c) = Some (JStr "users").
Proof. by destruct c. Qed.

End key_lemmas.

(** C1: in the Key Builder the key of a sub-resource is a strict extension
    of its parent's key: [lists()] of [all], [list(filters)] of [lists()],
    [details()] of [all], [detail(id)] of [details()] and [comments(postId)]
    of [detail(postId)], for every filters object and every identifier; the
    same holds in the [users] namespace. *)
Theorem C1_sub_resource_key_strictly_extends_parent
    (filters : gmap string jsvalue) (id : jsvalue) :
  strictly_extends (queryKeys.posts.lists tt) queryKeys.posts.all
  ∧ strictly_extends (queryKeys.posts.list filters) (queryKeys.posts.lists tt)
  ∧ strictly_extends (queryKeys.posts.details tt) queryKeys.posts.all
  ∧ strictly_extends (queryKeys.posts.detail id) (queryKeys.posts.details tt)
  ∧ strictly_extends (queryKeys.posts.comments id) (queryKeys.posts.detail id)
  ∧ strictly_extends (queryKeys.users.lists tt) queryKeys.users.all
  ∧ strictly_extends (queryKeys.users.details tt) queryKeys.users.all
  ∧ strictly_extends (queryKeys.users.detail id) (queryKeys.users.details tt).
Proof.
  repeat split; apply strictly_extends_snoc.
Qed.

(** C2: different identifiers give different detail keys, for posts and for
    users, and both detail keys extend the [details()] key. *)
Theorem C2_detail_keys_distinct (id1 id2 : Z) :
  id1 ≠ id2 →
  queryKeys.posts.detail (JNum id1) ≠ queryKeys.posts.detail (JNum id2)
  ∧ queryKeys.users.detail (JNum id1) ≠ queryKeys.users.detail (JNum id2)
  ∧ extends (queryKeys.posts.detail (JNum id1)) (queryKeys.posts.details tt)
  ∧ extends (queryKeys.posts.detail (JNum id2)) (queryKeys.posts.details tt)
  ∧ extends (queryKeys.users.detail (JNum id1)) (queryKeys.users.details tt)
  ∧ extends (queryKeys.users.detail (JNum id2)) (queryKeys.users.details tt).
Proof.
  intros Hne. repeat split.
  - unfold queryKeys.posts.detail. intros Heq.
    apply app_inv_head in Heq. congruence.
  - unfold queryKeys.users.detail. intros Heq.
    apply app_inv_head in Heq. congruence.
  - by eexists.
  - by eexists.
  - by eexists.
  - by eexists.
Qed.

Lemma C2_detail_keys_distinct_witness :
  queryKeys.posts.detail (JNum 1) ≠ queryKeys.posts.detail (JNum 2)
  ∧ queryKeys.users.detail (JNum 1) ≠ queryKeys.users.detail (JNum 2)
  ∧ extends (queryKeys.posts.detail (JNum 1)) (queryKeys.posts.details tt)
  ∧ extends (queryKeys.posts.detail (JNum 2)) (queryKeys.posts.details tt)
  ∧ extends (queryKeys.users.detail (JNum 1)) (queryKeys.users.details tt)
  ∧ extends (queryKeys.users.detail (JNum 2)) (queryKeys.users.details tt).
Proof. apply (C2_detail_keys_distinct 1 2). lia. Defined.

(** C9: the two namespaces are disjoint.  Every key built under
    [queryKeys.posts] starts with ['posts'], every key built under
    [queryKeys.users] starts with ['users']; so no key of one namespace
    equals or is a prefix of a key of the other, and invalidating a key of
    one namespace reaches no key of the other. *)
Theorem C9_namespaces_disjoint (pc : posts_call) (uc : users_call) :
  head (posts_key pc) = Some (JStr "posts")
  ∧ head (users_key uc) = Some (JStr "users")
  ∧ posts_key pc ≠ users_key uc
  ∧ ¬ extends (users_key uc) (posts_key pc)
  ∧ ¬ extends (posts_key pc) (users_key uc)
  ∧ ¬ invalidates (posts_key pc) (users_key uc)
  ∧ ¬ invalidates (users_key uc) (posts_key pc).
Proof.
  pose proof (posts_key_head pc) as Hp.
  pose proof (users_key_head uc) as Hu.
  assert (Hpu : ¬ extends (users_key uc) (posts_key pc)).
  { intros H. pose proof (extends_head _ _ _ H Hp). congruence. }
  assert (Hup : ¬ extends (posts_key pc) (users_key uc)).
  { intros H. pose proof (extends_head _ _ _ H Hu). congruence. }
  repeat split; try done.
  intros Heq. rewrite Heq in Hp. congruence.
Qed.

(* ===================================================================== *)
(** * Properties of the Resource Client and of the orchestration          *)
(* ===================================================================== *)

Section orchestration_lemmas.
  Import Orchestration.
  Context (cfg : Config) (opts : UseQueryOptions).

Lemma step_gate_off_calls now ev st :
  enabled_gate opts = false → calls (step cfg opts now ev st) = calls st.
Proof.
  intros Hgate. unfold step, precondition. rewrite Hgate. simpl.
  destruct ev, (status (entry st)); try reflexivity.
  by destruct (queryFn opts fetch).
Qed.

Lemma run_gate_off_calls events st :
  enabled_gate opts = false → calls (run cfg opts events st) = calls st.
Proof.
  intros Hgate. revert st.
  induction events as [|[now ev] events IH]; intros st; simpl; [done |].
  rewrite IH. by apply step_gate_off_calls.
Qed.

Lemma step_gate_off_idle now ev st :
  enabled_gate opts = false → observe st = idle_result →
  observe (step cfg opts now ev st) = idle_result.
Proof.
  intros Hgate Hidle.
  unfold observe, idle_result in Hidle.
  injection Hidle as Hdata Hloading Herror Hreason.
  destruct (status (entry st)) eqn:Hstatus; try discriminate;
    destruct ev; unfold step, precondition, observe; cbn zeta;
    rewrite ?Hgate, ?Hstatus; simpl;
    rewrite ?Hstatus, ?Hdata, ?Hreason; reflexivity.
Qed.

Lemma run_gate_off_idle events st :
  enabled_gate opts = false → observe st = idle_result →
  observe (run cfg opts events st) = idle_result.
Proof.
  intros Hgate. revert st.
  induction events as [|[now ev] events IH]; intros st Hidle; simpl; [done |].
  apply IH. by apply step_gate_off_idle.
Qed.

(** A read of a fresh entry starts no request. *)
Lemma access_fresh_calls now st :
  is_fresh cfg (entry st) now = true →
  step cfg opts now Access st = st.
Proof.
  intros Hfresh. unfold step, precondition. rewrite Hfresh.
  unfold is_fresh in Hfresh.
  destruct (status (entry st)); try done.
  by destruct (enabled_gate opts).
Qed.

(** A request whose every attempt is rejected with [reason] ends in the
    error state once the remaining attempts are used up. *)
Lemma settle_rejections fetch reason now (remaining : nat) st :
  enabled_gate opts = true →
  retryable cfg reason = true →
  queryFn opts fetch = Rejected reason →
  status (entry st) = Fetching →
  (failureCount st + remaining = retryLimit cfg)%nat →
  let final :=
    run cfg opts (replicate (S remaining) (now, Settle fetch)) st in
  status (entry final) = Errored
  ∧ error (entry final) = Some reason
  ∧ data (entry final) = data (entry st)
  ∧ calls final = (calls st + remaining)%nat.
Proof.
  intros Hgate Hretry Hfn. revert st.
  induction remaining as [|remaining IH]; intros st Hst Hcount.
  - simpl. rewrite Hst, Hfn, Hgate, Hretry. simpl.
    replace (failureCount st <? retryLimit cfg)%nat with false
      by (symmetry; apply Nat.ltb_ge; lia).
    simpl. repeat split; lia.
  - cbn zeta. rewrite replicate_S. cbn [run].
    set (st' := step cfg opts now (Settle fetch) st).
    assert (Hst' : st' = {| entry := entry st; calls := S (calls st);
                            failureCount := S (failureCount st) |}).
    { unfold st', step. rewrite Hst, Hfn, Hgate, Hretry. simpl.
      replace (failureCount st <? retryLimit cfg)%nat with true
        by (symmetry; apply Nat.ltb_lt; lia).
      reflexivity. }
    destruct (IH st') as (H1 & H2 & H3 & H4).
    + by rewrite Hst'.
    + rewrite Hst'. simpl. lia.
    + rewrite H1, H2, H3, H4, Hst'. simpl. repeat split; lia.
Qed.

(** A failure that is not retryable surfaces after the one attempt. *)
Lemma settle_rejection_final fetch reason now st :
  retryable cfg reason = false →
  queryFn opts fetch = Rejected reason →
  status (entry st) = Fetching →
  let final := step cfg opts now (Settle fetch) st in
  status (entry final) = Errored
  ∧ error (entry final) = Some reason
  ∧ calls final = calls st.
Proof.
  intros Hretry Hfn Hst. simpl. rewrite Hst, Hfn, Hretry.
  rewrite andb_false_r. simpl. done.
Qed.

End orchestration_lemmas.

Section hook_lemmas.
  Import Orchestration.

Lemma fetchFromAPI_not_ok fetch endpoint response :
  fetch (api.BASE_URL +:+ endpoint) = api.Responded response →
  api.ok response = false →
  api.fetchFromAPI fetch endpoint =
    Rejected (new_Error ("HTTP error! status: " +:+ pretty (api.status response))).
Proof. intros Hfetch Hok. unfold api.fetchFromAPI. by rewrite Hfetch, Hok. Qed.

Lemma fetchFromAPI_ok fetch endpoint response :
  fetch (api.BASE_URL +:+ endpoint) = api.Responded response →
  api.ok response = true →
  api.fetchFromAPI fetch endpoint = api.json response.
Proof. intros Hfetch Hok. unfold api.fetchFromAPI. by rewrite Hfetch, Hok. Qed.

Lemma fetchFromAPI_network_failure fetch endpoint reason :
  fetch (api.BASE_URL +:+ endpoint) = api.NetworkFailure reason →
  api.fetchFromAPI fetch endpoint = Rejected reason.
Proof. intros Hfetch. unfold api.fetchFromAPI. by rewrite Hfetch. Qed.

Lemma new_Error_message message : prop (new_Error message) "message" = JStr message.
Proof. unfold new_Error, prop, get_prop. by rewrite lookup_singleton_eq. Qed.

Lemma new_Error_statusCode message :
  prop (new_Error message) "statusCode" = JUndefined.
Proof. unfold new_Error, prop, get_prop. by rewrite lookup_singleton_ne. Qed.

(** The first read of an enabled query issues the one request. *)
Lemma first_access cfg opts now :
  enabled_gate opts = true →
  step cfg opts now Access initial = start_fetch initial.
Proof. intros Hgate. unfold step, precondition. by rewrite Hgate. Qed.

(** Without an override the gate of [usePost] is [!!id]. *)
Lemma usePost_gate (id : jsvalue) :
  enabled_gate (hooks.usePost_options id None) = truthy id.
Proof.
  unfold enabled_gate, hooks.usePost_options. simpl.
  rewrite (left_id_L ∅ (∪)), lookup_singleton_eq. by destruct (truthy id).
Qed.

Lemma usePostComments_gate (postId : jsvalue) :
  enabled_gate (hooks.usePostComments_options postId) = truthy postId.
Proof.
  unfold enabled_gate, hooks.usePostComments_options. simpl.
  rewrite lookup_singleton_eq. by destruct (truthy postId).
Qed.

(** An [enabled] property among the caller's options wins over [!!id]. *)
Lemma usePost_gate_override (id : jsvalue) (enabled : bool) :
  enabled_gate
    (hooks.usePost_options id
       (Some (hooks.plain_options {[ "enabled" := JBool enabled ]})))
  = enabled.
Proof.
  unfold enabled_gate, hooks.usePost_options. simpl.
  erewrite lookup_union_Some_l by apply lookup_singleton_eq.
  by destruct enabled.
Qed.

Lemma selectedPost_gate (selectedPostId : option Z) :
  enabled_gate (PostsList.selectedPost_options selectedPostId)
  = truthy (of_nullable selectedPostId).
Proof. apply usePost_gate_override. Qed.

End hook_lemmas.

(** C3 (amended): when the response has a non-success status the Resource
    Client rejects with a plain [Error] whose message is
    ["HTTP error! status: <status>"]; the status code is part of the message
    text only, the error has no [statusCode] field.  Once the orchestration
    layer has used up its attempts the consumer observes [isError = true] and
    that error. *)
Theorem C3_non_success_status_rejects_with_message_only
    (cfg : Orchestration.Config) (opts : UseQueryOptions)
    (fetch : api.Transport) (endpoint : string) (response : api.Response)
    (now : nat) :
  fetch (api.BASE_URL +:+ endpoint) = api.Responded response →
  api.ok response = false →
  queryFn opts fetch = api.fetchFromAPI fetch endpoint →
  Orchestration.enabled_gate opts = true →
  let message := "HTTP error! status: " +:+ pretty (api.status response) in
  let reason := new_Error message in
  let attempts :=
    if Orchestration.retryable cfg reason
    then S (Orchestration.retryLimit cfg) else 1%nat in
  let final :=
    Orchestration.run cfg opts
      ((now, Orchestration.Access)
         :: replicate attempts (now, Orchestration.Settle fetch))
      Orchestration.initial in
  api.fetchFromAPI fetch endpoint = Rejected reason
  ∧ prop reason "message" = JStr message
  ∧ prop reason "statusCode" = JUndefined
  ∧ Orchestration.isError (Orchestration.observe final) = true
  ∧ Orchestration.result_error (Orchestration.observe final) = Some reason
  ∧ Orchestration.calls final = attempts.
Proof.
  intros Hfetch Hok Hfn Hgate message reason attempts final.
  pose proof (fetchFromAPI_not_ok _ _ _ Hfetch Hok) as Hrejected.
  fold message in Hrejected. fold reason in Hrejected.
  split; [done |]. split; [apply new_Error_message |].
  split; [apply new_Error_statusCode |].
  rewrite <- Hfn in Hrejected.
  subst final. cbn [Orchestration.run]. rewrite first_access by done.
  subst attempts. destruct (Orchestration.retryable cfg reason) eqn:Hretry.
  - pose proof (settle_rejections cfg opts fetch reason now
                  (Orchestration.retryLimit cfg)
                  (Orchestration.start_fetch Orchestration.initial)
                  Hgate Hretry Hrejected eq_refl eq_refl) as Hfinal.
    cbv zeta in Hfinal.
    set (final := Orchestration.run _ _ _ _) in *.
    destruct Hfinal as (Hstatus & Herror & _ & Hcalls).
    unfold Orchestration.observe. cbn [Orchestration.isError
      Orchestration.result_error].
    by rewrite Hstatus, Herror, Hcalls.
  - pose proof (settle_rejection_final cfg opts fetch reason now
                  (Orchestration.start_fetch Orchestration.initial)
                  Hretry Hrejected eq_refl) as Hfinal.
    cbv zeta in Hfinal. cbn [replicate Orchestration.run].
    set (final := Orchestration.step _ _ _ _ _) in *.
    destruct Hfinal as (Hstatus & Herror & Hcalls).
    unfold Orchestration.observe. cbn [Orchestration.isError
      Orchestration.result_error].
    by rewrite Hstatus, Herror, Hcalls.
Qed.

Lemma C3_non_success_status_witness :
  let response := {| api.status := 500; api.json := Fulfilled JNull |} in
  let reason := new_Error "HTTP error! status: 500" in
  let final :=
    Orchestration.run example_config hooks.usePosts_options
      ((0%nat, Orchestration.Access)
         :: replicate 4 (0%nat, Orchestration.Settle server_error))
      Orchestration.initial in
  api.ok response = false
  ∧ Orchestration.enabled_gate hooks.usePosts_options = true
  ∧ api.postsAPI.getPosts server_error = Rejected reason
  ∧ prop reason "statusCode" = JUndefined
  ∧ Orchestration.isError (Orchestration.observe final) = true
  ∧ Orchestration.result_error (Orchestration.observe final) = Some reason
  ∧ Orchestration.calls final = 4%nat.
Proof.
  intros response reason final.
  split; [reflexivity |]. split; [reflexivity |].
  destruct (C3_non_success_status_rejects_with_message_only
              example_config hooks.usePosts_options server_error "/posts"
              response 0%nat)
    as (H1 & _ & H3 & H4 & H5 & H6); try reflexivity.
  repeat split; assumption.
Defined.

(** C3 as stated fails: with the server answering 500 the consumer does see
    [isError = true] after the retries, but [error.statusCode] is
    [undefined], not 500. *)
Lemma C3_counterexample_statusCode_undefined :
  let final :=
    Orchestration.run example_config hooks.usePosts_options
      ((0%nat, Orchestration.Access)
         :: replicate 4 (0%nat, Orchestration.Settle server_error))
      Orchestration.initial in
  Orchestration.isError (Orchestration.observe final) = true
  ∧ ∃ error : jsvalue,
      api.postsAPI.getPosts server_error = Rejected error
      ∧ Orchestration.result_error (Orchestration.observe final) = Some error
      ∧ prop error "message" = JStr "HTTP error! status: 500"
      ∧ prop error "statusCode" = JUndefined
      ∧ prop error "statusCode" ≠ JNum 500.
Proof.
  cbv zeta. split; [reflexivity |].
  exists (new_Error "HTTP error! status: 500").
  repeat split; try reflexivity. discriminate.
Qed.

(** C4 (amended): for a successful response the Resource Client returns what
    [response.json()] yields, unchanged.  A body that parses is delivered as
    the data whatever its shape, after exactly one attempt; no check of the
    shape is made and no decode failure is raised. *)
Theorem C4_successful_response_is_returned_unchecked
    (cfg : Orchestration.Config) (opts : UseQueryOptions)
    (fetch : api.Transport) (endpoint : string) (response : api.Response)
    (value : jsvalue) (now : nat) :
  fetch (api.BASE_URL +:+ endpoint) = api.Responded response →
  api.ok response = true →
  api.json response = Fulfilled value →
  queryFn opts fetch = api.fetchFromAPI fetch endpoint →
  Orchestration.enabled_gate opts = true →
  let final :=
    Orchestration.run cfg opts
      [(now, Orchestration.Access); (now, Orchestration.Settle fetch)]
      Orchestration.initial in
  api.fetchFromAPI fetch endpoint = api.json response
  ∧ api.fetchFromAPI fetch endpoint = Fulfilled value
  ∧ Orchestration.observe final =
      {| Orchestration.result_data := Some value;
         Orchestration.isLoading := false;
         Orchestration.isError := false;
         Orchestration.result_error := None |}
  ∧ Orchestration.calls final = 1%nat.
Proof.
  intros Hfetch Hok Hjson Hfn Hgate final.
  pose proof (fetchFromAPI_ok _ _ _ Hfetch Hok) as Hreturned.
  split; [done |]. split; [congruence |].
  subst final. cbn [Orchestration.run]. rewrite first_access by done.
  unfold Orchestration.step. cbn.
  by rewrite Hfn, Hreturned, Hjson.
Qed.

Lemma C4_successful_response_witness :
  let response := {| api.status := 200; api.json := Fulfilled wrong_shape |} in
  let final :=
    Orchestration.run example_config (hooks.usePost_options (JNum 1) None)
      [(0%nat, Orchestration.Access);
       (0%nat, Orchestration.Settle wrong_shape_server)]
      Orchestration.initial in
  api.ok response = true
  ∧ Orchestration.enabled_gate (hooks.usePost_options (JNum 1) None) = true
  ∧ api.postsAPI.getPost wrong_shape_server (JNum 1) = Fulfilled wrong_shape
  ∧ Orchestration.result_data (Orchestration.observe final) = Some wrong_shape
  ∧ Orchestration.calls final = 1%nat.
Proof.
  intros response final.
  split; [reflexivity |]. split; [reflexivity |].
  destruct (C4_successful_response_is_returned_unchecked
              example_config (hooks.usePost_options (JNum 1) None)
              wrong_shape_server "/posts/1" response wrong_shape 0%nat)
    as (_ & H2 & H3 & H4); try reflexivity.
  split; [exact H2 |]. split; [| exact H4].
  fold final in H3. by rewrite H3.
Defined.

(** C4 as stated fails: the server answers 200 with [{"foo": 1}], which is
    not a Post; [getPost] fulfils with that value, and the consumer is handed
    it as data, with no error. *)
Lemma C4_counterexample_wrong_shape_accepted :
  let final :=
    Orchestration.run example_config (hooks.usePost_options (JNum 1) None)
      [(0%nat, Orchestration.Access);
       (0%nat, Orchestration.Settle wrong_shape_server)]
      Orchestration.initial in
  is_Post wrong_shape = false
  ∧ api.postsAPI.getPost wrong_shape_server (JNum 1) = Fulfilled wrong_shape
  ∧ Orchestration.isError (Orchestration.observe final) = false
  ∧ Orchestration.result_error (Orchestration.observe final) = None
  ∧ Orchestration.result_data (Orchestration.observe final) = Some wrong_shape.
Proof. cbv zeta. repeat split; reflexivity. Qed.

(** C5: a query whose gate is off never invokes its producer: whatever
    happens (reads, refetch requests, settling requests, invalidations), the
    number of producer calls stays what it was, and a query that reported no
    data, no error and not loading keeps reporting that; from the initial
    entry no call is ever made.  [usePost] and [usePostComments] gate on
    [!!id], which is off for an absent identifier. *)
Theorem C5_gated_off_query_never_invokes_producer
    (cfg : Orchestration.Config) (opts : UseQueryOptions)
    (events : list (nat * Orchestration.Event))
    (st : Orchestration.QueryState) (id : jsvalue) :
  Orchestration.enabled_gate opts = false →
  Orchestration.calls (Orchestration.run cfg opts events st)
    = Orchestration.calls st
  ∧ (Orchestration.observe st = Orchestration.idle_result →
     Orchestration.observe (Orchestration.run cfg opts events st)
       = Orchestration.idle_result)
  ∧ Orchestration.calls
      (Orchestration.run cfg opts events Orchestration.initial) = 0%nat
  ∧ Orchestration.observe
      (Orchestration.run cfg opts events Orchestration.initial)
      = Orchestration.idle_result
  ∧ Orchestration.enabled_gate (hooks.usePost_options id None) = truthy id
  ∧ Orchestration.enabled_gate (hooks.usePostComments_options id) = truthy id
  ∧ truthy JNull = false
  ∧ truthy JUndefined = false.
Proof.
  intros Hgate.
  split; [by apply run_gate_off_calls |].
  split; [by apply run_gate_off_idle |].
  split; [by rewrite run_gate_off_calls |].
  split; [by apply run_gate_off_idle |].
  split; [apply usePost_gate |].
  split; [apply usePostComments_gate | done].
Qed.

Lemma C5_gated_off_query_witness :
  let opts := hooks.usePost_options JNull None in
  let events :=
    [(0%nat, Orchestration.Access); (1%nat, Orchestration.Refetch);
     (2%nat, Orchestration.Settle server_error);
     (3%nat, Orchestration.Invalidate); (4%nat, Orchestration.Access)] in
  Orchestration.enabled_gate opts = false
  ∧ Orchestration.calls
      (Orchestration.run example_config opts events Orchestration.initial)
    = 0%nat
  ∧ Orchestration.observe
      (Orchestration.run example_config opts events Orchestration.initial)
    = Orchestration.idle_result.
Proof.
  intros opts events.
  split; [reflexivity |].
  destruct (C5_gated_off_query_never_invokes_producer
              example_config opts events Orchestration.initial JNull)
    as (_ & H2 & H3 & _); [reflexivity |].
  split; [exact H3 | apply H2; reflexivity].
Defined.

(* ===================================================================== *)
(** * Properties of the View Layer                                        *)
(* ===================================================================== *)

Lemma handlePostClick_same (post : types.Post) :
  PostsList.handlePostClick (Some (types.id post)) post = None.
Proof. unfold PostsList.handlePostClick. by rewrite decide_True. Qed.

Lemma handlePostClick_other (selectedPostId : option Z) (post : types.Post) :
  selectedPostId ≠ Some (types.id post) →
  PostsList.handlePostClick selectedPostId post = Some (types.id post).
Proof. intros Hne. unfold PostsList.handlePostClick. by rewrite decide_False. Qed.

(** A click on a card runs [handlePostClick] on the card's post. *)
Lemma click_handlePostClick (selectedPostId : option Z) (post : types.Post) :
  PostsList.click selectedPostId post
  = PostsList.handlePostClick selectedPostId post.
Proof. reflexivity. Qed.

(** C7: a click on the selected post clears the selection, a click on any
    other post (or with nothing selected) selects that post.  The read of the
    detail query that follows a clearing click starts no request, and neither
    does the read of a post whose cached detail is fresh. *)
Theorem C7_click_toggles_selection
    (cfg : Orchestration.Config) (selectedPostId : option Z)
    (post : types.Post) (now : nat) (st : Orchestration.QueryState) :
  (selectedPostId = Some (types.id post) →
   PostsList.click selectedPostId post = None)
  ∧ (selectedPostId ≠ Some (types.id post) →
     PostsList.click selectedPostId post = Some (types.id post))
  ∧ PostsList.click selectedPostId post
    = PostsList.handlePostClick selectedPostId post
  ∧ (selectedPostId = Some (types.id post) →
     Orchestration.calls
       (snd (PostsList.selectedPost_query
               (PostsList.click selectedPostId post) cfg now st))
     = Orchestration.calls st)
  ∧ (Orchestration.is_fresh cfg (Orchestration.entry st) now = true →
     Orchestration.calls
       (snd (PostsList.selectedPost_query (Some (types.id post)) cfg now st))
     = Orchestration.calls st).
Proof.
  rewrite click_handlePostClick.
  split; [intros ->; apply handlePostClick_same |].
  split; [apply handlePostClick_other |].
  split; [reflexivity |].
  split.
  - intros ->. rewrite handlePostClick_same.
    unfold PostsList.selectedPost_query, hooks.usePost, Orchestration.useQuery.
    cbn [snd]. apply step_gate_off_calls.
    by rewrite usePost_gate_override.
  - intros Hfresh.
    unfold PostsList.selectedPost_query, hooks.usePost, Orchestration.useQuery.
    cbn [snd]. by rewrite access_fresh_calls.
Qed.

Lemma C7_click_toggles_selection_witness :
  PostsList.click (Some 1) post1 = None
  ∧ PostsList.click (Some 2) post1 = Some 1
  ∧ PostsList.click None post1 = Some 1
  ∧ Orchestration.calls
      (snd (PostsList.selectedPost_query (PostsList.click (Some 1) post1)
              example_config 10%nat (fetched_at_0 JNull)))
    = 1%nat
  ∧ Orchestration.calls
      (snd (PostsList.selectedPost_query (Some 1)
              example_config 10%nat (fetched_at_0 JNull)))
    = 1%nat.
Proof.
  destruct (C7_click_toggles_selection example_config (Some 1) post1 10%nat
              (fetched_at_0 JNull)) as (H1 & _ & _ & H4 & H5).
  destruct (C7_click_toggles_selection example_config (Some 2) post1 10%nat
              (fetched_at_0 JNull)) as (_ & H2 & _).
  destruct (C7_click_toggles_selection example_config None post1 10%nat
              (fetched_at_0 JNull)) as (_ & H3 & _).
  split; [apply H1; reflexivity |].
  split; [apply H2; discriminate |].
  split; [apply H3; discriminate |].
  split; [apply H4; reflexivity | apply H5; reflexivity].
Defined.

(** C8: identifier 0 is falsy, so the default gate [!!id] of [usePost] is
    off for it, and so is the gate PostsList passes for a selected post with
    id 0: the detail query of post 0 never invokes its producer, whatever
    happens, and a read of it reports no data, no error and not loading. *)
Theorem C8_usePost_zero_is_gated_off
    (cfg : Orchestration.Config)
    (events : list (nat * Orchestration.Event)) (now : nat)
    (st : Orchestration.QueryState) :
  truthy (JNum 0) = false
  ∧ Orchestration.enabled_gate (hooks.usePost_options (JNum 0) None) = false
  ∧ Orchestration.enabled_gate (PostsList.selectedPost_options (Some 0)) = false
  ∧ Orchestration.calls
      (Orchestration.run cfg (hooks.usePost_options (JNum 0) None) events st)
    = Orchestration.calls st
  ∧ Orchestration.calls
      (Orchestration.run cfg (PostsList.selectedPost_options (Some 0)) events st)
    = Orchestration.calls st
  ∧ Orchestration.calls
      (Orchestration.run cfg (hooks.usePost_options (JNum 0) None) events
         Orchestration.initial)
    = 0%nat
  ∧ hooks.usePost (JNum 0) None cfg now Orchestration.initial
    = (Orchestration.idle_result, Orchestration.initial)
  ∧ PostsList.selectedPost_query (Some 0) cfg now Orchestration.initial
    = (Orchestration.idle_result, Orchestration.initial).
Proof.
  assert (Hdefault :
    Orchestration.enabled_gate (hooks.usePost_options (JNum 0) None) = false)
    by apply usePost_gate.
  assert (Hlist :
    Orchestration.enabled_gate (PostsList.selectedPost_options (Some 0)) = false)
    by apply selectedPost_gate.
  split; [reflexivity |]. split; [exact Hdefault |]. split; [exact Hlist |].
  split; [by apply run_gate_off_calls |].
  split; [by apply run_gate_off_calls |].
  split; [by rewrite run_gate_off_calls |].
  split.
  - unfold hooks.usePost, Orchestration.useQuery, Orchestration.step,
      Orchestration.precondition.
    by rewrite Hdefault.
  - unfold PostsList.selectedPost_query, hooks.usePost, Orchestration.useQuery,
      Orchestration.step, Orchestration.precondition.
    unfold PostsList.selectedPost_options in Hlist.
    by rewrite Hlist.
Qed.

(** C10: what PostCard renders does not depend on [isSelected]: for the same
    post and the same [onClick], any two values of [isSelected] give the same
    output; PostsList does pass [isSelected], [true] for the selected post
    and [false] for the others. *)
Theorem C10_PostCard_ignores_isSelected
    (R : Type) (post : types.Post) (onClick : option (types.Post → R))
    (isSelected1 isSelected2 : option bool) (selectedPostId : option Z) :
  PostCard.PostCard
    {| PostCard.post := post; PostCard.onClick := onClick;
       PostCard.isSelected := isSelected1 |}
  = PostCard.PostCard
      {| PostCard.post := post; PostCard.onClick := onClick;
         PostCard.isSelected := isSelected2 |}
  ∧ PostCard.isSelected (PostsList.card_props selectedPostId post)
    = Some (bool_decide (selectedPostId = Some (types.id post)))
  ∧ PostCard.isSelected (PostsList.card_props (Some (types.id post)) post)
    = Some true
  ∧ PostCard.isSelected (PostsList.card_props None post) = Some false.
Proof.
  split; [reflexivity |]. split; [reflexivity |].
  split; [| reflexivity].
  unfold PostsList.card_props. cbn. by rewrite bool_decide_eq_true_2.
Qed.

Section search_lemmas.
  Local Open Scope nat_scope.





Lemma string_app_cons c s1 s2 : String c s1 +:+ s2 = String c (s1 +:+ s2).
Proof. reflexivity. Qed.


Lemma toLowerCase_app s1 s2 :
  toLowerCase (s1 +:+ s2) = toLowerCase s1 +:+ toLowerCase s2.
Proof. induction s1 as [|c s1 IH]; simpl; [done | by rewrite IH]. Qed.


Lemma prefix_spec t s :
  String.prefix t s = true ↔ ∃ rest, s = t +:+ rest.
Proof.
  revert s. induction t as [|c t IH]; intros s.
  - destruct s; simpl; split; eauto.
  - destruct s as [|c' s]; simpl.
    + split; [done | by intros [rest ?]].
    + destruct (ascii_dec c c') as [-> | Hne].
      * rewrite IH. split; intros [rest Hrest]; exists rest;
          rewrite string_app_cons in *; congruence.
      * split; [done |].
        intros [rest Hrest]. rewrite string_app_cons in Hrest. congruence.
Qed.

Lemma includes_spec s t :
  includes s t = true ↔ ∃ before after, s = before +:+ t +:+ after.
Proof.
  induction s as [|c s IH]; cbn [includes]; rewrite orb_true_iff, prefix_spec.
  - split.
    + intros [[rest Hrest] | ?]; [| done]. by exists "", rest.
    + intros (before & after & Heq). left.
      destruct before; [by exists after | done].
  - rewrite IH. split.
    + intros [[rest Hrest] | (before & after & ->)].
      * by exists "", rest.
      * by exists (String c before), after.
    + intros (before & after & Heq). destruct before as [|c' before].
      * left. by exists after.
      * right. rewrite string_app_cons in Heq. injection Heq as -> ->.
        by exists before, after.
Qed.




End search_lemmas.

Section engine_lemmas.
  Context (lower : string → string).

Lemma matches_with_hit term post :
  PostsList.matches_with lower term post = true
  ↔ search_hit_with lower term post.
Proof.
  unfold PostsList.matches_with, search_hit_with, occurs_ignoring_case.
  by rewrite orb_true_iff, !includes_spec.
Qed.

(** On ASCII text the test is the test with the ASCII lower-casing. *)
Lemma matches_with_ascii term post :
  ascii_engine lower →
  is_ascii term = true →
  is_ascii (types.title post) = true →
  is_ascii (types.body post) = true →
  PostsList.matches_with lower term post = PostsList.matches term post.
Proof.
  intros Hengine Hterm Htitle Hbody.
  unfold PostsList.matches_with, PostsList.matches.
  by rewrite !Hengine.
Qed.

Lemma filteredPosts_with_elem posts term post :
  post ∈ PostsList.filteredPosts_with lower (Some posts) term
  ↔ post ∈ posts ∧ PostsList.matches_with lower term post = true.
Proof.
  unfold PostsList.filteredPosts_with.
  by rewrite !list_elem_of_In, filter_In.
Qed.


End engine_lemmas.

Lemma filteredPosts_ascii_instance posts term :
  PostsList.filteredPosts_with toLowerCase posts term
  = PostsList.filteredPosts posts term.
Proof. reflexivity. Qed.



(* ===================================================================== *)
(** * Further properties of the Key Builder                               *)
(* ===================================================================== *)

Section more_key_lemmas.

Lemma filters_segment_inj (filters1 filters2 : gmap string jsvalue) :
  JObj {[ "filters" := JObj filters1 ]} = JObj {[ "filters" := JObj filters2 ]} →
  filters1 = filters2.
Proof.
  intros Heq.
  apply (f_equal (λ v, match v with
                       | JObj o => o !! "filters"
                       | _ => None
                       end)) in Heq.
  rewrite !lookup_singleton_eq in Heq. congruence.
Qed.

Lemma posts_list_inj filters1 filters2 :
  queryKeys.posts.list filters1 = queryKeys.posts.list filters2 →
  filters1 = filters2.
Proof.
  unfold queryKeys.posts.list. intros Heq.
  apply app_inj_tail in Heq as [_ Heq]. by apply filters_segment_inj.
Qed.

Lemma posts_detail_inj id1 id2 :
  queryKeys.posts.detail id1 = queryKeys.posts.detail id2 → id1 = id2.
Proof.
  unfold queryKeys.posts.detail. intros Heq.
  by apply app_inj_tail in Heq as [_ Heq].
Qed.

Lemma posts_comments_inj id1 id2 :
  queryKeys.posts.comments id1 = queryKeys.posts.comments id2 → id1 = id2.
Proof.
  unfold queryKeys.posts.comments. intros Heq.
  apply app_inj_tail in Heq as [Heq _]. by apply posts_detail_inj.
Qed.

Lemma users_detail_inj id1 id2 :
  queryKeys.users.detail id1 = queryKeys.users.detail id2 → id1 = id2.
Proof.
  unfold queryKeys.users.detail. intros Heq.
  by apply app_inj_tail in Heq as [_ Heq].
Qed.

Lemma key_length_posts (c : posts_call) :
  length (posts_key c)
  = match c with
    | PostsAll => 1%nat
    | PostsLists | PostsDetails => 2%nat
    | PostsList _ | PostsDetail _ => 3%nat
    | PostsComments _ => 4%nat
    end.
Proof. by destruct c. Qed.

Lemma key_second_posts (c : posts_call) :
  posts_key c !! 1%nat
  = match c with
    | PostsAll => None
    | PostsLists | PostsList _ => Some (JStr "list")
    | PostsDetails | PostsDetail _ | PostsComments _ => Some (JStr "detail")
    end.
Proof. by destruct c. Qed.

End more_key_lemmas.

(** X1: the Key Builder gives different resources different keys: two calls
    of the builders of one namespace return the same key only when they are
    the same call with the same argument. *)
Theorem X1_builder_keys_identify_the_call
    (c1 c2 : posts_call) (u1 u2 : users_call) :
  (posts_key c1 = posts_key c2 ↔ c1 = c2)
  ∧ (users_key u1 = users_key u2 ↔ u1 = u2).
Proof.
  split; (split; [| by intros ->]).
  - intros Heq.
    pose proof (f_equal length Heq) as Hlen.
    pose proof (f_equal (λ k : QueryKey, k !! 1%nat) Heq) as Hsecond.
    cbv beta in Hsecond.
    rewrite !key_length_posts in Hlen. rewrite !key_second_posts in Hsecond.
    destruct c1, c2; try discriminate; try reflexivity.
    + f_equal. by apply posts_list_inj.
    + f_equal. by apply posts_detail_inj.
    + f_equal. by apply posts_comments_inj.
  - intros Heq.
    pose proof (f_equal length Heq) as Hlen.
    pose proof (f_equal (λ k : QueryKey, k !! 1%nat) Heq) as Hsecond.
    destruct u1, u2; try discriminate; try reflexivity.
    f_equal. by apply users_detail_inj.
Qed.

(** X2: which keys of the posts namespace a key is a prefix of.  Every key
    extends [all]; the keys that extend [lists()] are [lists()] itself and
    the filtered lists, and no detail or comments key; the keys that extend
    [details()] are [details()], the details and the comments, and no list
    key. *)
Theorem X2_prefix_reach_of_posts_keys (c : posts_call) :
  extends (posts_key c) queryKeys.posts.all
  ∧ (extends (posts_key c) (queryKeys.posts.lists tt)
     ↔ c = PostsLists ∨ ∃ filters, c = PostsList filters)
  ∧ (extends (posts_key c) (queryKeys.posts.details tt)
     ↔ c = PostsDetails ∨ (∃ id, c = PostsDetail id)
       ∨ ∃ postId, c = PostsComments postId).
Proof.
  split; [destruct c; by eexists |].
  split; split.
  - intros [suffix Hsuffix].
    pose proof (f_equal (λ k : QueryKey, k !! 1%nat) Hsuffix) as Hsecond.
    cbv beta in Hsecond. rewrite key_second_posts in Hsecond.
    destruct c; try discriminate; eauto.
  - intros [-> | [filters ->]]; by eexists.
  - intros [suffix Hsuffix].
    pose proof (f_equal (λ k : QueryKey, k !! 1%nat) Hsuffix) as Hsecond.
    cbv beta in Hsecond. rewrite key_second_posts in Hsecond.
    destruct c; try discriminate; eauto.
  - intros [-> | [[id ->] | [postId ->]]]; by eexists.
Qed.

(** X3: the keys of different posts do not reach one another.  The comments
    key of a post extends the detail key of that post and of no other post;
    a detail key extends another detail key only when it is the same key;
    no detail key extends a comments key. *)
Theorem X3_post_keys_are_isolated (id1 id2 : jsvalue) :
  (extends (queryKeys.posts.comments id1) (queryKeys.posts.detail id2)
   ↔ id1 = id2)
  ∧ (extends (queryKeys.posts.detail id1) (queryKeys.posts.detail id2)
     ↔ id1 = id2)
  ∧ ¬ extends (queryKeys.posts.detail id1) (queryKeys.posts.comments id2).
Proof.
  split; [| split].
  - split; [| intros ->; by eexists].
    intros [suffix Hsuffix].
    pose proof (f_equal (λ k : QueryKey, k !! 2%nat) Hsuffix) as Hthird.
    simpl in Hthird. congruence.
  - split; [| intros ->; exists []; by rewrite app_nil_r].
    intros [suffix Hsuffix].
    pose proof (f_equal (λ k : QueryKey, k !! 2%nat) Hsuffix) as Hthird.
    simpl in Hthird. congruence.
  - intros [suffix Hsuffix].
    apply (f_equal length) in Hsuffix. simpl in Hsuffix. lia.
Qed.

(* ===================================================================== *)
(** * Further properties of the Resource Client and of the hooks          *)
(* ===================================================================== *)

Section more_api_lemmas.

Lemma string_app_assoc s1 s2 s3 : (s1 +:+ s2) +:+ s3 = s1 +:+ s2 +:+ s3.
Proof.
  induction s1 as [|c s1 IH]; [done |].
  rewrite !string_app_cons. by rewrite IH.
Qed.

Lemma string_app_length s1 s2 :
  String.length (s1 +:+ s2) = (String.length s1 + String.length s2)%nat.
Proof.
  induction s1 as [|c s1 IH]; [done |].
  rewrite string_app_cons. simpl. by rewrite IH.
Qed.

Lemma string_app_inv_head s t1 t2 : s +:+ t1 = s +:+ t2 → t1 = t2.
Proof.
  induction s as [|c s IH]; [done |].
  rewrite !string_app_cons. intros [= Heq]. by apply IH.
Qed.

Lemma string_app_inv_tail s1 s2 t : s1 +:+ t = s2 +:+ t → s1 = s2.
Proof.
  revert s2. induction s1 as [|c s1 IH]; intros [|c' s2] Heq; [done | | |].
  - apply (f_equal String.length) in Heq.
    rewrite !string_app_length in Heq. simpl in Heq. lia.
  - apply (f_equal String.length) in Heq.
    rewrite !string_app_length in Heq. simpl in Heq. lia.
  - rewrite !string_app_cons in Heq. injection Heq as -> Heq.
    f_equal. by apply IH.
Qed.

Lemma string_app_nonempty_ne s t : t ≠ "" → s ≠ s +:+ t.
Proof.
  intros Hne Heq. apply (f_equal String.length) in Heq.
  rewrite string_app_length in Heq. destruct t; [done | simpl in Heq; lia].
Qed.

Lemma new_Error_inj message1 message2 :
  new_Error message1 = new_Error message2 → message1 = message2.
Proof.
  intros Heq. apply (f_equal (λ v, prop v "message")) in Heq.
  rewrite !new_Error_message in Heq. congruence.
Qed.

Lemma ok_spec response :
  api.ok response = true ↔ 200 ≤ api.status response ≤ 299.
Proof. unfold api.ok. rewrite andb_true_iff, !Z.leb_le. done. Qed.

(** A network that answers one URL with [first], every other URL with
    [other]. *)
Lemma fetchFromAPI_two_urls endpoint1 endpoint2 first other :
  endpoint1 ≠ endpoint2 →
  let answer value :=
    api.Responded {| api.status := 200; api.json := Fulfilled value |} in
  let fetch url :=
    if String.eqb url (api.BASE_URL +:+ endpoint1)
    then answer first else answer other in
  api.fetchFromAPI fetch endpoint1 = Fulfilled first
  ∧ api.fetchFromAPI fetch endpoint2 = Fulfilled other.
Proof.
  intros Hne answer fetch. unfold api.fetchFromAPI, fetch.
  rewrite String.eqb_refl.
  destruct (String.eqb_spec (api.BASE_URL +:+ endpoint2)
              (api.BASE_URL +:+ endpoint1)) as [Heq | _]; [| done].
  apply string_app_inv_head in Heq. congruence.
Qed.

End more_api_lemmas.

(** X4: when the Resource Client succeeds.  [fetchFromAPI] fulfils with a
    value exactly when the network answered the URL [BASE_URL + endpoint]
    with a response whose status lies in 200..299 and whose body parses to
    that value; a network failure, any other status (199 and 300 included)
    and a body that does not parse all reject. *)
Theorem X4_fetchFromAPI_fulfils_exactly_on_2xx
    (fetch : api.Transport) (endpoint : string) (value : jsvalue) :
  api.fetchFromAPI fetch endpoint = Fulfilled value
  ↔ ∃ response : api.Response,
      fetch (api.BASE_URL +:+ endpoint) = api.Responded response
      ∧ 200 ≤ api.status response ≤ 299
      ∧ api.json response = Fulfilled value.
Proof.
  unfold api.fetchFromAPI. split.
  - destruct (fetch _) as [reason | response]; [done |].
    destruct (api.ok response) eqn:Hok; [| done].
    simpl. intros Hjson. exists response. by rewrite <- ok_spec.
  - intros (response & -> & Hstatus & Hjson).
    apply ok_spec in Hstatus. by rewrite Hstatus.
Qed.

(** X5: the rejection of a non-success response tells the status apart.  Two
    requests answered with non-success statuses reject with the same error
    exactly when the statuses are the same, whatever the endpoints and the
    bodies were. *)
Theorem X5_rejection_determines_status
    (fetch1 fetch2 : api.Transport) (endpoint1 endpoint2 : string)
    (response1 response2 : api.Response) :
  fetch1 (api.BASE_URL +:+ endpoint1) = api.Responded response1 →
  api.ok response1 = false →
  fetch2 (api.BASE_URL +:+ endpoint2) = api.Responded response2 →
  api.ok response2 = false →
  api.fetchFromAPI fetch1 endpoint1 = api.fetchFromAPI fetch2 endpoint2
  ↔ api.status response1 = api.status response2.
Proof.
  intros Hfetch1 Hok1 Hfetch2 Hok2.
  rewrite (fetchFromAPI_not_ok _ _ _ Hfetch1 Hok1).
  rewrite (fetchFromAPI_not_ok _ _ _ Hfetch2 Hok2).
  split; [| by intros ->].
  intros Heq.
  apply (f_equal (λ outcome, match outcome with
                             | Fulfilled value => value
                             | Rejected reason => reason
                             end)) in Heq.
  cbv beta iota in Heq.
  apply new_Error_inj, string_app_inv_head in Heq.
  by apply (inj pretty).
Qed.

Lemma X5_rejection_determines_status_witness :
  api.fetchFromAPI server_error "/posts"
    = api.fetchFromAPI
        (always (api.Responded
                   {| api.status := 500; api.json := Rejected JNull |}))
        "/users"
  ↔ (500 : Z) = 500.
Proof.
  apply (X5_rejection_determines_status server_error
           (always (api.Responded
                      {| api.status := 500; api.json := Rejected JNull |}))
           "/posts" "/users"
           {| api.status := 500; api.json := Fulfilled JNull |}
           {| api.status := 500; api.json := Rejected JNull |});
    reflexivity.
Defined.

(** X6: each resource has a URL of its own.  The posts of two different
    identifiers, a post and its comments, and a post and the user of the
    same identifier are requested from different URLs: the network can
    answer each with a value of its own and the client delivers each value
    to the right call. *)
Theorem X6_resources_have_separate_urls (id1 id2 : Z) (first other : jsvalue) :
  id1 ≠ id2 →
  (∃ fetch,
     api.postsAPI.getPost fetch (JNum id1) = Fulfilled first
     ∧ api.postsAPI.getPost fetch (JNum id2) = Fulfilled other)
  ∧ (∃ fetch,
       api.usersAPI.getUser fetch (JNum id1) = Fulfilled first
       ∧ api.usersAPI.getUser fetch (JNum id2) = Fulfilled other)
  ∧ (∃ fetch,
       api.postsAPI.getPostComments fetch (JNum id1) = Fulfilled first
       ∧ api.postsAPI.getPostComments fetch (JNum id2) = Fulfilled other)
  ∧ (∃ fetch,
       api.postsAPI.getPost fetch (JNum id1) = Fulfilled first
       ∧ api.postsAPI.getPostComments fetch (JNum id1) = Fulfilled other)
  ∧ (∃ fetch,
       api.postsAPI.getPost fetch (JNum id1) = Fulfilled first
       ∧ api.usersAPI.getUser fetch (JNum id1) = Fulfilled other)
  ∧ (∃ fetch,
       api.postsAPI.getPosts fetch = Fulfilled first
       ∧ api.postsAPI.getPost fetch (JNum id1) = Fulfilled other).
Proof.
  intros Hne.
  unfold api.postsAPI.getPost, api.usersAPI.getUser,
    api.postsAPI.getPostComments, api.postsAPI.getPosts.
  repeat split; eexists; apply fetchFromAPI_two_urls; simpl to_string.
  - intros Heq%string_app_inv_head. by apply (inj pretty) in Heq.
  - intros Heq%string_app_inv_head. by apply (inj pretty) in Heq.
  - intros Heq%string_app_inv_head%string_app_inv_tail.
    by apply (inj pretty) in Heq.
  - intros Heq%string_app_inv_head.
    by apply (string_app_nonempty_ne _ "/comments") in Heq.
  - rewrite !string_app_cons. discriminate.
  - intros Heq. apply (f_equal String.length) in Heq.
    rewrite string_app_length in Heq. simpl in Heq. lia.
Qed.

Lemma X6_resources_have_separate_urls_witness :
  ∃ fetch,
    api.postsAPI.getPost fetch (JNum 1) = Fulfilled (JStr "one")
    ∧ api.postsAPI.getPost fetch (JNum 2) = Fulfilled (JStr "two").
Proof.
  destruct (X6_resources_have_separate_urls 1 2 (JStr "one") (JStr "two"))
    as [H _]; [lia | exact H].
Defined.


(** X8: queries that share a cache key fetch the same resource, as long as
    the callers stay within the declared type of [options].  Whenever two
    calls of [usePosts], [usePost] and [usePostComments] that pass neither
    [queryKey] nor [queryFn] build the same query key, they have the same
    producer, whatever the identifiers and the other options are.  The
    condition is needed: a call of [usePost] that passes the key of the
    posts list shares the cache entry of [usePosts] and still requests the
    single post. *)
Theorem X8_same_key_same_producer
    (call1 call2 : hook_call) (id : jsvalue) (fetch : api.Transport) :
  (within_declared_type call1 → within_declared_type call2 →
   queryKey (hook_options call1) = queryKey (hook_options call2) →
   queryFn (hook_options call1) = queryFn (hook_options call2))
  ∧ let given :=
      {| hooks.given_queryKey := Some (queryKeys.posts.lists tt);
         hooks.given_queryFn := None;
         hooks.given_options := ∅ |} in
    queryKey (hook_options (CallUsePost id (Some given)))
    = queryKey (hook_options CallUsePosts)
    ∧ queryFn (hook_options (CallUsePost id (Some given))) fetch
      = api.fetchFromAPI fetch ("/posts/" +:+ to_string id)
    ∧ queryFn (hook_options CallUsePosts) fetch
      = api.fetchFromAPI fetch "/posts".
Proof.
  split; [| done].
  assert (Hplain : ∀ call, within_declared_type call →
            match call with
            | CallUsePost callId _ =>
                queryKey (hook_options call) = queryKeys.posts.detail callId
                ∧ queryFn (hook_options call)
                  = (fun fetch' => api.postsAPI.getPost fetch' callId)
            | _ => True
            end).
  { intros [| callId [given |] |]; simpl; try done.
    by intros [-> ->]. }
  intros Hwithin1 Hwithin2 Heq.
  pose proof (Hplain call1 Hwithin1) as H1.
  pose proof (Hplain call2 Hwithin2) as H2.
  destruct call1 as [| id1 opts1 | postId1], call2 as [| id2 opts2 | postId2];
    try reflexivity.
  - destruct H2 as [Hkey _]. rewrite Hkey in Heq. discriminate.
  - discriminate.
  - destruct H1 as [Hkey _]. rewrite Hkey in Heq. discriminate.
  - destruct H1 as [Hkey1 ->], H2 as [Hkey2 ->].
    rewrite Hkey1, Hkey2 in Heq. by apply posts_detail_inj in Heq as ->.
  - destruct H1 as [Hkey _]. rewrite Hkey in Heq.
    apply (f_equal length) in Heq. discriminate.
  - discriminate.
  - destruct H2 as [Hkey _]. rewrite Hkey in Heq.
    apply (f_equal length) in Heq. discriminate.
  - simpl in Heq. by apply posts_comments_inj in Heq as ->.
Qed.

Lemma X8_same_key_same_producer_witness :
  queryFn (hook_options (CallUsePost (JNum 5) None))
  = queryFn (hook_options
               (CallUsePost (JNum 5)
                  (Some (hooks.plain_options {[ "enabled" := JBool false ]})))).
Proof.
  destruct (X8_same_key_same_producer
              (CallUsePost (JNum 5) None)
              (CallUsePost (JNum 5)
                 (Some (hooks.plain_options {[ "enabled" := JBool false ]})))
              JNull server_error) as [H _].
  apply H; [exact I | split; reflexivity | reflexivity].
Defined.

(** X9: PostsList asks for a post only when one is selected.  The [enabled]
    option it hands to [usePost] is always a boolean, and it is [true]
    exactly when [selectedPostId] is a number other than 0; in that case the
    key is the detail key of that number and the producer requests
    [/posts/<number>]: no request for [/posts/null] or [/posts/0] is made. *)
Theorem X9_selected_post_query_enabled_iff_selected
    (selectedPostId : option Z) (fetch : api.Transport) :
  (∃ enabled : bool,
     options (PostsList.selectedPost_options selectedPostId) !! "enabled"
     = Some (JBool enabled)
     ∧ (enabled = true ↔ ∃ n : Z, selectedPostId = Some n ∧ n ≠ 0))
  ∧ (∀ n : Z, selectedPostId = Some n →
       queryKey (PostsList.selectedPost_options selectedPostId)
       = queryKeys.posts.detail (JNum n)
       ∧ queryFn (PostsList.selectedPost_options selectedPostId) fetch
         = api.fetchFromAPI fetch ("/posts/" +:+ pretty n)).
Proof.
  split.
  - exists (truthy (of_nullable selectedPostId)). split.
    + unfold PostsList.selectedPost_options, hooks.usePost_options. simpl.
      erewrite lookup_union_Some_l; [done |]. apply lookup_singleton_eq.
    + destruct selectedPostId as [n |]; simpl.
      * rewrite negb_true_iff, Z.eqb_neq. split; [by eauto |].
        by intros (m & [= ->] & Hm).
      * split; [done | by intros (n & ? & _)].
  - by intros n ->.
Qed.

Lemma X9_selected_post_query_witness :
  queryKey (PostsList.selectedPost_options (Some 7))
  = queryKeys.posts.detail (JNum 7)
  ∧ queryFn (PostsList.selectedPost_options (Some 7)) server_error
    = api.fetchFromAPI server_error ("/posts/" +:+ pretty (7 : Z)).
Proof.
  destruct (X9_selected_post_query_enabled_iff_selected (Some 7) server_error)
    as [_ H].
  apply (H 7). reflexivity.
Defined.

(* ===================================================================== *)
(** * Further properties of the View Layer                                *)
(* ===================================================================== *)

Section more_search_lemmas.

(** A string that contains a longer term contains every part of it. *)
Lemma includes_part s before term after :
  includes s (before +:+ term +:+ after) = true → includes s term = true.
Proof.
  rewrite !includes_spec. intros (x & y & ->).
  exists (x +:+ before), (after +:+ y).
  by rewrite !string_app_assoc.
Qed.

Lemma matches_part before term after post :
  PostsList.matches (before +:+ term +:+ after) post = true →
  PostsList.matches term post = true.
Proof.
  unfold PostsList.matches. rewrite !orb_true_iff, !toLowerCase_app.
  intros [H | H]; [left | right]; by eapply includes_part.
Qed.


End more_search_lemmas.

(** With the ASCII lower-casing a longer term only narrows the result. *)
Lemma filteredPosts_narrows
    (posts : list types.Post) (before searchTerm after : string) :
  sublist
    (PostsList.filteredPosts (Some posts) (before +:+ searchTerm +:+ after))
    (PostsList.filteredPosts (Some posts) searchTerm)
  ∧ PostsList.filteredPosts
      (Some (PostsList.filteredPosts (Some posts) searchTerm))
      (before +:+ searchTerm +:+ after)
    = PostsList.filteredPosts (Some posts) (before +:+ searchTerm +:+ after).
Proof.
  unfold PostsList.filteredPosts.
  induction posts as [|post posts [IH1 IH2]]; simpl; [done |].
  destruct (PostsList.matches (before +:+ searchTerm +:+ after) post)
    eqn:Hlong.
  - rewrite (matches_part _ _ _ _ Hlong). simpl. rewrite Hlong.
    split; [by apply sublist_skip | by rewrite IH2].
  - destruct (PostsList.matches searchTerm post); simpl.
    + rewrite Hlong. split; [by apply sublist_cons | done].
    + done.
Qed.

Lemma is_ascii_app s1 s2 :
  is_ascii (s1 +:+ s2) = is_ascii s1 && is_ascii s2.
Proof.
  induction s1 as [|c s1 IH]; [done |].
  rewrite string_app_cons. simpl. by rewrite IH, andb_assoc.
Qed.

(** ASCII posts: title and body are ASCII text. *)
Lemma filteredPosts_with_ascii lower posts term :
  ascii_engine lower →
  Forall (λ post, is_ascii (types.title post) = true
                  ∧ is_ascii (types.body post) = true) posts →
  is_ascii term = true →
  PostsList.filteredPosts_with lower (Some posts) term
  = PostsList.filteredPosts (Some posts) term.
Proof.
  intros Hengine Hposts Hterm. simpl.
  induction Hposts as [|post posts [Htitle Hbody] _ IH]; simpl; [done |].
  by rewrite (matches_with_ascii lower term post), IH.
Qed.

Lemma filteredPosts_Forall (P : types.Post → Prop) posts term :
  Forall P posts → Forall P (PostsList.filteredPosts (Some posts) term).
Proof.
  intros Hposts. simpl.
  induction Hposts as [|post posts Hpost _ IH]; simpl; [done |].
  destruct (PostsList.matches term post); [by constructor | done].
Qed.

(** X10: with ASCII text, typing more of a search term only narrows the
    result.  When the titles and bodies of the posts and the search term
    are ASCII text, the posts found for a term that contains [searchTerm]
    are among the posts found for [searchTerm], in the same order, and
    searching the longer term among the posts already found gives the same
    list as searching it among all posts.  The engine's [toLowerCase] is the
    parameter [lower]. *)
Theorem X10_longer_search_term_narrows
    (lower : string → string) (posts : list types.Post)
    (before searchTerm after : string) :
  ascii_engine lower →
  Forall (λ post, is_ascii (types.title post) = true
                  ∧ is_ascii (types.body post) = true) posts →
  is_ascii before = true →
  is_ascii searchTerm = true →
  is_ascii after = true →
  sublist
    (PostsList.filteredPosts_with lower (Some posts)
       (before +:+ searchTerm +:+ after))
    (PostsList.filteredPosts_with lower (Some posts) searchTerm)
  ∧ PostsList.filteredPosts_with lower
      (Some (PostsList.filteredPosts_with lower (Some posts) searchTerm))
      (before +:+ searchTerm +:+ after)
    = PostsList.filteredPosts_with lower (Some posts)
        (before +:+ searchTerm +:+ after).
Proof.
  intros Hengine Hposts Hbefore Hterm Hafter.
  assert (Hlong : is_ascii (before +:+ searchTerm +:+ after) = true).
  { by rewrite !is_ascii_app, Hbefore, Hterm, Hafter. }
  rewrite !(filteredPosts_with_ascii lower posts) by done.
  rewrite (filteredPosts_with_ascii lower)
    by (try done; by apply filteredPosts_Forall).
  apply filteredPosts_narrows.
Qed.

Lemma X10_longer_search_term_witness :
  sublist
    (PostsList.filteredPosts_with toLowerCase (Some [post1; post2])
       ("Q" +:+ "ui" +:+ "s"))
    (PostsList.filteredPosts_with toLowerCase (Some [post1; post2]) "ui").
Proof.
  destruct (X10_longer_search_term_narrows toLowerCase [post1; post2]
              "Q" "ui" "s") as [H _].
  - intros s _. reflexivity.
  - repeat constructor.
  - reflexivity.
  - reflexivity.
  - reflexivity.
  - exact H.
Defined.



Section findIndex_lemmas.
  Context {A : Type} (test : A → bool).
  Implicit Types items : list A.

Lemma findIndex_range items :
  -1 ≤ PostsList.findIndex test items < Z.of_nat (length items).
Proof.
  induction items as [|item items IH]; simpl; [lia |].
  destruct (test item); [lia |].
  destruct (Z.ltb_spec (PostsList.findIndex test items) 0); lia.
Qed.

Lemma findIndex_none items :
  PostsList.findIndex test items = -1
  ↔ ∀ item, item ∈ items → test item = false.
Proof.
  induction items as [|item items IH]; simpl.
  - split; [intros _ item Hin; by apply elem_of_nil in Hin | done].
  - pose proof (findIndex_range items) as Hrange.
    destruct (test item) eqn:Htest.
    + split; [lia |]. intros Hall.
      specialize (Hall item (list_elem_of_here _ _)). congruence.
    + destruct (Z.ltb_spec (PostsList.findIndex test items) 0).
      * split; [| done]. intros _ item' [-> | Hin]%elem_of_cons; [done |].
        apply IH; [lia | done].
      * split; [lia |]. intros Hall.
        assert (PostsList.findIndex test items = -1); [| lia].
        apply IH. intros item' Hin. apply Hall. by apply list_elem_of_further.
Qed.

Lemma findIndex_some items (index : nat) :
  PostsList.findIndex test items = Z.of_nat index
  ↔ ∃ item, items !! index = Some item ∧ test item = true
      ∧ ∀ (j : nat) earlier,
          (j < index)%nat → items !! j = Some earlier → test earlier = false.
Proof.
  revert index. induction items as [|item items IH]; intros index; simpl.
  - split; [lia | by intros (item & ? & _)].
  - pose proof (findIndex_range items) as Hrange.
    destruct (test item) eqn:Htest.
    + split.
      * intros Hindex. assert (index = 0%nat) as -> by lia.
        exists item. repeat split; [done |]. intros j earlier Hj. lia.
      * intros (found & Hfound & Hpass & Hearlier).
        destruct index as [|index]; [done |].
        specialize (Hearlier 0%nat item). simpl in Hearlier.
        rewrite Hearlier in Htest; [done | lia | done].
    + destruct (Z.ltb_spec (PostsList.findIndex test items) 0).
      * split; [lia |]. intros (found & Hfound & Hpass & _).
        destruct index as [|index]; simpl in Hfound; [congruence |].
        assert (PostsList.findIndex test items = -1) as Hnone by lia.
        rewrite findIndex_none in Hnone.
        rewrite Hnone in Hpass; [done |].
        by eapply list_elem_of_lookup_2.
      * destruct index as [|index].
        { split; [lia |]. intros (found & [= ->] & Hpass & _). congruence. }
        replace (PostsList.findIndex test items + 1 = Z.of_nat (S index))
          with (PostsList.findIndex test items + 1 = Z.of_nat index + 1)
          by (f_equal; lia).
        rewrite Z.add_cancel_r, IH. split.
        -- intros (found & Hfound & Hpass & Hearlier).
           exists found. repeat split; [done.. |].
           intros [|j] earlier Hj; simpl; [congruence |].
           apply Hearlier. lia.
        -- intros (found & Hfound & Hpass & Hearlier).
           exists found. repeat split; [done.. |].
           intros j earlier Hj Hlookup.
           apply (Hearlier (S j)); [lia | done].
Qed.

End findIndex_lemmas.

Lemma selected_truthy (selectedPostId : option Z) :
  truthy (of_nullable selectedPostId) = true
  ↔ ∃ n : Z, selectedPostId = Some n ∧ n ≠ 0.
Proof.
  destruct selectedPostId as [n |]; simpl.
  - rewrite negb_true_iff, Z.eqb_neq. split; [by eauto |].
    by intros (m & [= ->] & Hm).
  - split; [done | by intros (n & ? & _)].
Qed.

Lemma selectedPostIndex_spec
    (selectedPostId : option Z) (filteredPosts : list types.Post) :
  let index := PostsList.selectedPostIndex selectedPostId filteredPosts in
  -1 ≤ index < Z.of_nat (length filteredPosts)
  ∧ (index = -1
     ↔ selectedPostId = None ∨ selectedPostId = Some 0
       ∨ ∀ post, post ∈ filteredPosts → Some (types.id post) ≠ selectedPostId)
  ∧ ∀ position : nat,
      index = Z.of_nat position
      ↔ (∃ n, selectedPostId = Some n ∧ n ≠ 0)
        ∧ ∃ post,
            filteredPosts !! position = Some post
            ∧ Some (types.id post) = selectedPostId
            ∧ ∀ (j : nat) earlier,
                (j < position)%nat → filteredPosts !! j = Some earlier →
                Some (types.id earlier) ≠ selectedPostId.
Proof.
  unfold PostsList.selectedPostIndex. cbv zeta.
  pose proof (selected_truthy selectedPostId) as Htruthy.
  set (test := λ post : types.Post,
         bool_decide (Some (types.id post) = selectedPostId)).
  pose proof (findIndex_range test filteredPosts) as Hrange.
  destruct (truthy (of_nullable selectedPostId)) eqn:Hsel.
  - destruct Htruthy as [(n & -> & Hn) _]; [done |].
    split; [done |]. split.
    + rewrite findIndex_none. split.
      * intros Hall. right. right. intros post Hin.
        specialize (Hall post Hin). by apply bool_decide_eq_false in Hall.
      * intros [? | [[= ?] | Hall]]; [done.. |].
        intros post Hin. apply bool_decide_eq_false. by apply Hall.
    + intros position. rewrite findIndex_some. split.
      * intros (post & Hpost & Hpass%bool_decide_eq_true & Hearlier).
        split; [by eauto |]. exists post. repeat split; [done.. |].
        intros j earlier Hj Hlookup.
        by eapply bool_decide_eq_false, Hearlier.
      * intros (_ & post & Hpost & Hpass & Hearlier).
        exists post. repeat split; [done | by apply bool_decide_eq_true |].
        intros j earlier Hj Hlookup.
        by eapply bool_decide_eq_false, Hearlier.
  - split; [lia |]. split.
    + split; [| done]. intros _.
      destruct selectedPostId as [n |]; [| by left].
      right. left. simpl in Hsel.
      apply negb_false_iff, Z.eqb_eq in Hsel. by subst.
    + intros position. split; [lia |].
      intros [Hn _]. apply Htruthy in Hn. done.
Qed.

(** X12: what [selectedPostIndex] is.  It is -1 or a position of the
    filtered list; it is -1 exactly when nothing is selected, when the
    selected id is 0, or when no filtered post has the selected id (the
    search has filtered the selected post out); otherwise it is the position
    of the first filtered post with the selected id. *)
Theorem X12_selectedPostIndex_is_first_match
    (selectedPostId : option Z) (filteredPosts : list types.Post) :
  let index := PostsList.selectedPostIndex selectedPostId filteredPosts in
  -1 ≤ index < Z.of_nat (length filteredPosts)
  ∧ (index = -1
     ↔ selectedPostId = None ∨ selectedPostId = Some 0
       ∨ ∀ post, post ∈ filteredPosts → Some (types.id post) ≠ selectedPostId)
  ∧ ∀ position : nat,
      index = Z.of_nat position
      ↔ (∃ n, selectedPostId = Some n ∧ n ≠ 0)
        ∧ ∃ post,
            filteredPosts !! position = Some post
            ∧ Some (types.id post) = selectedPostId
            ∧ ∀ (j : nat) earlier,
                (j < position)%nat → filteredPosts !! j = Some earlier →
                Some (types.id earlier) ≠ selectedPostId.
Proof. apply selectedPostIndex_spec. Qed.

Lemma screen_main_view (isLoading isError : bool) :
  PostsList.screen isLoading isError = PostsList.MainView
  ↔ isLoading = false ∧ isError = false.
Proof. destruct isLoading, isError; simpl; intuition congruence. Qed.

(** The inline detail within the main view. *)
Lemma inline_detail_main_view
    (viewMode : PostsList.ViewMode) (selectedPostId : option Z)
    (filteredPosts : list types.Post) :
  (∀ i j : nat,
     PostsList.inline_detail_shown viewMode selectedPostId filteredPosts i
     = true →
     PostsList.inline_detail_shown viewMode selectedPostId filteredPosts j
     = true →
     i = j)
  ∧ ((∃ i : nat,
        PostsList.inline_detail_shown viewMode selectedPostId filteredPosts i
        = true)
     ↔ viewMode = PostsList.ViewList
       ∧ ∃ n, selectedPostId = Some n ∧ n ≠ 0
           ∧ ∃ post, post ∈ filteredPosts ∧ types.id post = n)
  ∧ ∀ i : nat,
      PostsList.inline_detail_shown PostsList.ViewGrid selectedPostId
        filteredPosts i
      = false.
Proof.
  unfold PostsList.inline_detail_shown.
  split; [| split; [| done]].
  - intros i j [_ Hi%Z.eqb_eq]%andb_true_iff [_ Hj%Z.eqb_eq]%andb_true_iff.
    lia.
  - pose proof (selectedPostIndex_spec selectedPostId filteredPosts) as Hspec.
    cbv zeta in Hspec. destruct Hspec as (Hrange & Hnone & Hsome).
    split.
    + intros (i & [Hlist Hi%Z.eqb_eq]%andb_true_iff).
      split; [by destruct viewMode |].
      apply Hsome in Hi as ((n & -> & Hn) & post & Hpost & [= Hid] & _).
      exists n. repeat split; [done |]. exists post. split; [| done].
      by eapply list_elem_of_lookup_2.
    + intros (-> & n & -> & Hn & post & Hin & Hid). simpl.
      assert (PostsList.selectedPostIndex (Some n) filteredPosts ≠ -1)
        as Hne.
      { rewrite Hnone. intros [? | [[= ?] | Hall]]; [done.. |].
        by apply (Hall post Hin); rewrite Hid. }
      exists (Z.to_nat (PostsList.selectedPostIndex (Some n) filteredPosts)).
      apply Z.eqb_eq. lia.
Qed.

(** X13: the inline detail of the list view.  It is rendered above at most
    one card.  It is on the page exactly when the posts query is neither
    loading nor in error, the view is the list view, the selected id is a
    number other than 0 and some filtered post has that id; so a search that
    filters the selected post out hides it, and so do the loading and the
    error screen.  In the grid view it is never rendered. *)
Theorem X13_inline_detail_shown_at_most_once
    (isLoading isError : bool) (viewMode : PostsList.ViewMode)
    (selectedPostId : option Z) (filteredPosts : list types.Post) :
  (∀ i j : nat,
     PostsList.page_inline_detail_shown isLoading isError viewMode
       selectedPostId filteredPosts i = true →
     PostsList.page_inline_detail_shown isLoading isError viewMode
       selectedPostId filteredPosts j = true →
     i = j)
  ∧ ((∃ i : nat,
        PostsList.page_inline_detail_shown isLoading isError viewMode
          selectedPostId filteredPosts i = true)
     ↔ isLoading = false ∧ isError = false
       ∧ viewMode = PostsList.ViewList
       ∧ ∃ n, selectedPostId = Some n ∧ n ≠ 0
           ∧ ∃ post, post ∈ filteredPosts ∧ types.id post = n)
  ∧ ∀ i : nat,
      PostsList.page_inline_detail_shown isLoading isError PostsList.ViewGrid
        selectedPostId filteredPosts i
      = false.
Proof.
  destruct (inline_detail_main_view viewMode selectedPostId filteredPosts)
    as (Honce & Hshown & _).
  unfold PostsList.page_inline_detail_shown.
  pose proof (screen_main_view isLoading isError) as Hmain.
  destruct (PostsList.screen isLoading isError).
  - split; [done |]. split; [| done].
    split; [by intros [i ?] |]. intros (Hl & He & _).
    by destruct Hmain as [_ Hmain]; discriminate Hmain.
  - split; [done |]. split; [| done].
    split; [by intros [i ?] |]. intros (Hl & He & _).
    by destruct Hmain as [_ Hmain]; discriminate Hmain.
  - destruct Hmain as [Hmain _]. destruct (Hmain eq_refl) as [-> ->].
    split; [exact Honce |]. split; [| done].
    rewrite Hshown. intuition.
Qed.

Lemma X13_inline_detail_witness :
  PostsList.page_inline_detail_shown false false PostsList.ViewList (Some 2)
    [post1; post2] 1
  = true
  ∧ 1%nat = 1%nat.
Proof.
  split; [reflexivity |].
  destruct (X13_inline_detail_shown_at_most_once false false
              PostsList.ViewList (Some 2) [post1; post2]) as [H _].
  apply H; reflexivity.
Defined.

(** X14: what a key press does to the selection.  A key press never selects
    a post: it leaves the selection as it is or clears it.  Only Escape in
    the grid view changes anything; in the list view Escape leaves the
    selection (and the inline detail) as it is.  After Escape in the grid
    view the popover is gone and the page scrolls again. *)
Theorem X14_key_press_only_closes
    (selectedPostId : option Z) (viewMode : PostsList.ViewMode)
    (key : string) :
  (PostsList.handleKeyDown selectedPostId viewMode key = selectedPostId
   ∨ PostsList.handleKeyDown selectedPostId viewMode key = None)
  ∧ (key ≠ "Escape" →
     PostsList.handleKeyDown selectedPostId viewMode key = selectedPostId)
  ∧ PostsList.handleKeyDown selectedPostId PostsList.ViewList key
    = selectedPostId
  ∧ PostsList.grid_popover
      (PostsList.handleKeyDown selectedPostId PostsList.ViewGrid "Escape")
      PostsList.ViewGrid
    ≠ PostsList.SlotElement
  ∧ PostsList.body_overflow
      (PostsList.handleKeyDown selectedPostId PostsList.ViewGrid "Escape")
      PostsList.ViewGrid
    = "unset".
Proof.
  unfold PostsList.handleKeyDown.
  split; [| split; [| split; [| split]]].
  - destruct (_ && _ && _); auto.
  - intros Hkey. apply String.eqb_neq in Hkey. by rewrite Hkey.
  - by rewrite andb_false_r.
  - unfold PostsList.grid_popover. simpl. rewrite andb_true_r.
    destruct selectedPostId as [n |]; simpl; [| done].
    destruct (n =? 0) eqn:Hn; simpl; rewrite ?Hn; done.
  - unfold PostsList.body_overflow. simpl. rewrite andb_true_r.
    destruct selectedPostId as [n |]; simpl; [| done].
    destruct (n =? 0) eqn:Hn; simpl; rewrite ?Hn; done.
Qed.

Lemma X14_key_press_witness :
  PostsList.handleKeyDown (Some 3) PostsList.ViewGrid "Enter" = Some 3.
Proof.
  destruct (X14_key_press_only_closes (Some 3) PostsList.ViewGrid "Enter")
    as (_ & H & _).
  apply H. discriminate.
Defined.

(** The popover within the main view. *)
Lemma popover_main_view
    (selectedPostId : option Z) (viewMode : PostsList.ViewMode)
    (className : string) (selectedPost : option types.Post)
    (isLoadingPost : bool) (text : string) :
  (PostsList.body_overflow selectedPostId viewMode = "hidden"
   ↔ PostsList.grid_popover selectedPostId viewMode = PostsList.SlotElement)
  ∧ (PostsList.grid_popover selectedPostId viewMode = PostsList.SlotElement
     ↔ viewMode = PostsList.ViewGrid
       ∧ PostsList.PostDetail className selectedPostId selectedPost
           isLoadingPost ≠ None)
  ∧ (PostsList.grid_popover selectedPostId viewMode = PostsList.SlotText text
     ↔ viewMode = PostsList.ViewGrid ∧ selectedPostId = Some 0 ∧ text = "0").
Proof.
  unfold PostsList.body_overflow, PostsList.grid_popover, PostsList.PostDetail.
  destruct viewMode, selectedPostId as [n |]; simpl;
    rewrite ?andb_false_r, ?andb_true_r;
    try (intuition congruence).
  destruct (Z.eqb_spec n 0) as [-> | Hn]; simpl;
    try change (pretty 0) with "0"; intuition congruence.
Qed.

Lemma body_overflow_hidden (selectedPostId : option Z)
    (viewMode : PostsList.ViewMode) :
  PostsList.body_overflow selectedPostId viewMode = "hidden"
  ↔ viewMode = PostsList.ViewGrid ∧ ∃ n, selectedPostId = Some n ∧ n ≠ 0.
Proof.
  unfold PostsList.body_overflow.
  pose proof (selected_truthy selectedPostId) as Htruthy.
  destruct (truthy (of_nullable selectedPostId)), viewMode; simpl.
  - split; [| done]. intros _. split; [done |]. by apply Htruthy.
  - split; [done |]. by intros [? _].
  - split; [done |]. intros [_ Hn]. by apply Htruthy in Hn.
  - split; [done |]. by intros [? _].
Qed.

(** X15: the popover and the scroll lock.  The popover is on the page
    exactly when the posts query is neither loading nor in error and the
    effect has set [overflow] to ['hidden']; whenever it is on the page the
    detail component inside it renders a panel.  The scroll lock itself does
    not look at the posts query: [overflow] is ['hidden'] exactly when the
    view is the grid view and the selected id is a number other than 0, so
    on the loading and the error screen the scroll can be locked with no
    popover on the page.  When the selected id is 0 in the grid view of the
    main view the page shows the text ["0"] in place of the popover; that is
    the only text the slot ever shows. *)
Theorem X15_popover_and_scroll_lock
    (isLoading isError : bool) (selectedPostId : option Z)
    (viewMode : PostsList.ViewMode) (className : string)
    (selectedPost : option types.Post) (isLoadingPost : bool)
    (text : string) :
  (PostsList.page_grid_popover isLoading isError selectedPostId viewMode
   = PostsList.SlotElement
   ↔ isLoading = false ∧ isError = false
     ∧ PostsList.body_overflow selectedPostId viewMode = "hidden")
  ∧ (PostsList.page_grid_popover isLoading isError selectedPostId viewMode
     = PostsList.SlotElement
     ↔ isLoading = false ∧ isError = false
       ∧ viewMode = PostsList.ViewGrid
       ∧ PostsList.PostDetail className selectedPostId selectedPost
           isLoadingPost ≠ None)
  ∧ (PostsList.body_overflow selectedPostId viewMode = "hidden"
     ↔ viewMode = PostsList.ViewGrid
       ∧ ∃ n, selectedPostId = Some n ∧ n ≠ 0)
  ∧ (PostsList.page_grid_popover isLoading isError selectedPostId viewMode
     = PostsList.SlotText text
     ↔ isLoading = false ∧ isError = false
       ∧ viewMode = PostsList.ViewGrid ∧ selectedPostId = Some 0
       ∧ text = "0").
Proof.
  destruct (popover_main_view selectedPostId viewMode className selectedPost
              isLoadingPost text) as (Hlock & Hpanel & Htext).
  pose proof (body_overflow_hidden selectedPostId viewMode) as Hhidden.
  unfold PostsList.page_grid_popover.
  destruct isLoading, isError; simpl; intuition congruence.
Qed.

(** X16: the detail panel.  It renders nothing exactly when nothing is
    selected or the selected id is 0.  While the detail query is loading the
    panel does not depend on the post data it has (the spinner replaces the
    content).  Whatever it shows, the panel has one click handler, the close
    button, and a click on it clears the selection: no click inside the
    panel selects a post. *)
Theorem X16_PostDetail_panel
    (className : string) (selectedPostId : option Z)
    (selectedPost other : option types.Post) (isLoadingPost : bool) :
  (PostsList.PostDetail className selectedPostId selectedPost isLoadingPost
   = None
   ↔ selectedPostId = None ∨ selectedPostId = Some 0)
  ∧ PostsList.PostDetail className selectedPostId selectedPost true
    = PostsList.PostDetail className selectedPostId other true
  ∧ ∀ panel,
      PostsList.PostDetail className selectedPostId selectedPost isLoadingPost
      = Some panel →
      click_results panel = [Some None].
Proof.
  unfold PostsList.PostDetail.
  split; [| split; [done |]].
  - destruct selectedPostId as [n |]; simpl.
    + destruct (Z.eqb_spec n 0) as [-> | Hn]; simpl; intuition congruence.
    + intuition congruence.
  - intros panel.
    destruct (negb (truthy (of_nullable selectedPostId))); [done |].
    intros [= <-].
    destruct isLoadingPost; [reflexivity |].
    destruct selectedPost; reflexivity.
Qed.

Lemma X16_PostDetail_panel_witness :
  ∃ panel,
    PostsList.PostDetail "" (Some 1) (Some post1) false = Some panel
    ∧ click_results panel = [Some None].
Proof.
  destruct (PostsList.PostDetail "" (Some 1) (Some post1) false)
    as [panel |] eqn:Hpanel; [| discriminate].
  exists panel. split; [reflexivity |].
  destruct (X16_PostDetail_panel "" (Some 1) (Some post1) None false)
    as (_ & _ & H).
  apply H. exact Hpanel.
Defined.

(** X18: the "No posts found" block.  It is on the page exactly when the
    posts query is neither loading nor in error, the search term is not
    empty and no fetched post contains the term when case is ignored (the
    lower-cased term is a stretch of the lower-cased title or body; the
    engine's [toLowerCase] is the parameter [lower]); with an empty term it
    is never shown, even when there are no posts.  The search results line
    is absent exactly on the loading and error screens and when the term is
    empty, and it reads "No posts found for" exactly when the block is
    shown. *)
Theorem X18_empty_state_iff_no_hit
    (lower : string → string) (isLoading isError : bool)
    (posts : list types.Post) (searchTerm : string) :
  let filtered := PostsList.filteredPosts_with lower (Some posts) searchTerm in
  (PostsList.page_empty_state_shown isLoading isError filtered searchTerm
   = true
   ↔ isLoading = false ∧ isError = false ∧ searchTerm ≠ ""
     ∧ ∀ post, post ∈ posts → ¬ search_hit_with lower searchTerm post)
  ∧ (PostsList.page_results_info isLoading isError filtered searchTerm = None
     ↔ isLoading = true ∨ isError = true ∨ searchTerm = "")
  ∧ (PostsList.page_results_info isLoading isError filtered searchTerm
     = Some ["No posts found for " +:+ PostsList.dquote; searchTerm;
             PostsList.dquote]
     ↔ PostsList.page_empty_state_shown isLoading isError filtered searchTerm
       = true).
Proof.
  cbv zeta.
  unfold PostsList.page_empty_state_shown, PostsList.page_results_info.
  destruct isLoading, isError; simpl PostsList.screen; cbv iota;
    try (intuition congruence).
  unfold PostsList.empty_state_shown, PostsList.results_info. simpl truthy.
  assert (Hterm : negb (String.eqb searchTerm "") = true ↔ searchTerm ≠ "").
  { by rewrite negb_true_iff, String.eqb_neq. }
  assert (Hempty :
    (length (PostsList.filteredPosts_with lower (Some posts) searchTerm)
     =? 0)%nat = true
    ↔ ∀ post, post ∈ posts → ¬ search_hit_with lower searchTerm post).
  { rewrite Nat.eqb_eq, length_zero_iff_nil. split.
    - intros Hnil post Hin Hhit.
      assert (post ∈ PostsList.filteredPosts_with lower (Some posts)
                       searchTerm) as Hfound
        by (by rewrite filteredPosts_with_elem, matches_with_hit).
      rewrite Hnil in Hfound. by apply elem_of_nil in Hfound.
    - intros Hnone.
      destruct (PostsList.filteredPosts_with lower (Some posts) searchTerm)
        as [|post rest] eqn:Hfilter; [done |].
      assert (post ∈ PostsList.filteredPosts_with lower (Some posts)
                       searchTerm) as Hfound
        by (rewrite Hfilter; apply list_elem_of_here).
      rewrite filteredPosts_with_elem, matches_with_hit in Hfound.
      destruct Hfound as [Hin Hhit]. by destruct (Hnone post Hin). }
  split; [| split].
  - rewrite andb_true_iff, Hempty, Hterm. tauto.
  - destruct (negb (String.eqb searchTerm "")) eqn:Hnonempty.
    + split; [done |]. intros [? | [? | ->]]; [done.. |].
      simpl in Hnonempty. done.
    + split; [| done]. intros _. right. right.
      apply negb_false_iff in Hnonempty. by apply String.eqb_eq.
  - destruct (negb (String.eqb searchTerm "")); rewrite ?andb_false_r;
      [| done].
    rewrite andb_true_r.
    destruct (length (PostsList.filteredPosts_with lower (Some posts)
                        searchTerm) =? 0)%nat;
      done.
Qed.

(** X19: a card shows the whole post.  Two cards are rendered the same only
    when their posts have the same id, userId, title and body. *)
Theorem X19_PostCard_determines_post
    (R : Type) (props1 props2 : PostCard.PostCardProps R) :
  PostCard.PostCard props1 = PostCard.PostCard props2 →
  PostCard.post props1 = PostCard.post props2.
Proof.
  destruct props1 as [[id1 userId1 title1 body1] onClick1 isSelected1].
  destruct props2 as [[id2 userId2 title2 body2] onClick2 isSelected2].
  unfold PostCard.PostCard. simpl.
  intros Heq. injection Heq as _ Htitle Hbody HuserId Hid.
  apply (inj pretty) in HuserId, Hid. by subst.
Qed.

Lemma X19_PostCard_determines_post_witness :
  let selected : PostCard.PostCardProps unit :=
    {| PostCard.post := post1; PostCard.onClick := None;
       PostCard.isSelected := Some true |} in
  let plain : PostCard.PostCardProps unit :=
    {| PostCard.post := post1; PostCard.onClick := None;
       PostCard.isSelected := None |} in
  PostCard.post selected = PostCard.post plain.
Proof.
  intros selected plain.
  apply (X19_PostCard_determines_post unit
           {| PostCard.post := post1; PostCard.onClick := None;
              PostCard.isSelected := Some true |}
           {| PostCard.post := post1; PostCard.onClick := None;
              PostCard.isSelected := None |}).
  reflexivity.
Defined.

(** X20: from one post to another.  Whatever was selected, a click on the
    card of a post followed by a click on the card of a post with another id
    leaves the second post selected (the first one need not be closed
    first), and a further click on the second card clears the selection. *)
Theorem X20_click_switches_between_posts
    (selectedPostId : option Z) (first second : types.Post) :
  types.id first ≠ types.id second →
  PostsList.click (PostsList.click selectedPostId first) second
  = Some (types.id second)
  ∧ PostsList.click
      (PostsList.click (PostsList.click selectedPostId first) second) second
    = None.
Proof.
  intros Hne.
  rewrite (click_handlePostClick selectedPostId first).
  rewrite !(click_handlePostClick _ second).
  assert (PostsList.handlePostClick selectedPostId first
          ≠ Some (types.id second)) as Hfirst.
  { unfold PostsList.handlePostClick.
    destruct (decide (selectedPostId = Some (types.id first))); congruence. }
  rewrite (handlePostClick_other _ _ Hfirst).
  split; [reflexivity | apply handlePostClick_same].
Qed.

Lemma X20_click_switches_witness :
  PostsList.click (PostsList.click (Some 1) post1) post2 = Some 2
  ∧ PostsList.click
      (PostsList.click (PostsList.click (Some 1) post1) post2) post2
    = None.
Proof.
  apply (X20_click_switches_between_posts (Some 1) post1 post2).
  discriminate.
Defined.

(** X17: a click opens the post.  When the clicked post is not the selected
    one, its id is not 0 and it is among the filtered posts, then after the
    click the detail component renders a panel, in the grid view the popover
    is rendered and the scroll is locked, and in the list view the inline
    detail is rendered above a card of a post with the clicked id. *)
Theorem X17_click_opens_the_detail
    (selectedPostId : option Z) (post : types.Post)
    (filteredPosts : list types.Post) (className : string)
    (selectedPost : option types.Post) (isLoadingPost : bool) :
  selectedPostId ≠ Some (types.id post) →
  types.id post ≠ 0 →
  post ∈ filteredPosts →
  let next := PostsList.click selectedPostId post in
  PostsList.PostDetail className next selectedPost isLoadingPost ≠ None
  ∧ PostsList.grid_popover next PostsList.ViewGrid = PostsList.SlotElement
  ∧ PostsList.body_overflow next PostsList.ViewGrid = "hidden"
  ∧ ∃ (position : nat) (shown : types.Post),
      PostsList.inline_detail_shown PostsList.ViewList next filteredPosts
        position = true
      ∧ filteredPosts !! position = Some shown
      ∧ types.id shown = types.id post.
Proof.
  intros Hother Hid Hin next. subst next.
  rewrite click_handlePostClick, (handlePostClick_other _ _ Hother).
  assert (Htruthy : truthy (JNum (types.id post)) = true).
  { simpl. by rewrite negb_true_iff, Z.eqb_neq. }
  split; [| split; [| split]].
  - unfold PostsList.PostDetail. simpl of_nullable. by rewrite Htruthy.
  - unfold PostsList.grid_popover. cbn [PostsList.is_grid negb].
    by rewrite Htruthy.
  - unfold PostsList.body_overflow. simpl of_nullable. by rewrite Htruthy.
  - pose proof (selectedPostIndex_spec (Some (types.id post)) filteredPosts)
      as Hspec.
    cbv zeta in Hspec. destruct Hspec as (Hrange & Hnone & Hsome).
    assert (PostsList.selectedPostIndex (Some (types.id post)) filteredPosts
            ≠ -1) as Hfound.
    { rewrite Hnone. intros [? | [[= ?] | Hall]]; [done.. |].
      by apply (Hall post Hin). }
    set (index := PostsList.selectedPostIndex (Some (types.id post))
                    filteredPosts) in *.
    assert (Hposition : index = Z.of_nat (Z.to_nat index)) by lia.
    pose proof Hposition as Hshown.
    apply Hsome in Hshown as (_ & shown & Hlookup & [= Hsame] & _).
    exists (Z.to_nat index), shown.
    split; [| done].
    unfold PostsList.inline_detail_shown. fold index. simpl.
    apply Z.eqb_eq. exact Hposition.
Qed.

Lemma X17_click_opens_the_detail_witness :
  PostsList.grid_popover (PostsList.click None post2) PostsList.ViewGrid
  = PostsList.SlotElement
  ∧ PostsList.body_overflow (PostsList.click None post2) PostsList.ViewGrid
    = "hidden".
Proof.
  destruct (X17_click_opens_the_detail None post2 [post1; post2] "" None
              false) as (_ & H2 & H3 & _).
  - discriminate.
  - discriminate.
  - apply list_elem_of_further, list_elem_of_here.
  - split; assumption.
Defined.

(** X21: where a rejection of the Resource Client comes from.  [fetchFromAPI]
    rejects with [reason] exactly in three cases: the request could not be
    made and [reason] is the network's failure, passed on unchanged; the
    status is outside 200..299 and [reason] is the error with the message
    ["HTTP error! status: <status>"]; or the status is inside 200..299 and
    [reason] is what reading the body as JSON rejected with. *)
Theorem X21_fetchFromAPI_rejections
    (fetch : api.Transport) (endpoint : string) (reason : jsvalue) :
  api.fetchFromAPI fetch endpoint = Rejected reason
  ↔ fetch (api.BASE_URL +:+ endpoint) = api.NetworkFailure reason
    ∨ (∃ response,
         fetch (api.BASE_URL +:+ endpoint) = api.Responded response
         ∧ ¬ (200 ≤ api.status response ≤ 299)
         ∧ reason
           = new_Error
               ("HTTP error! status: " +:+ pretty (api.status response)))
    ∨ (∃ response,
         fetch (api.BASE_URL +:+ endpoint) = api.Responded response
         ∧ 200 ≤ api.status response ≤ 299
         ∧ api.json response = Rejected reason).
Proof.
  unfold api.fetchFromAPI.
  destruct (fetch _) as [failure | response].
  - split; [intros [= ->]; by left |].
    intros [[= ->] | [(? & [= ] & _) | (? & [= ] & _)]]. done.
  - pose proof (ok_spec response) as Hok.
    destruct (api.ok response); simpl.
    + split.
      * intros Hjson. right. right. exists response.
        split; [done |]. split; [by apply Hok | done].
      * intros [[= ] | [(r & [= <-] & Hstatus & _) | (r & [= <-] & _ & Hjson)]];
          [| done]. destruct Hstatus. by apply Hok.
    + split.
      * intros Heq. right. left. exists response.
        split; [done |]. split; [intros Hstatus; by apply Hok in Hstatus |].
        apply (f_equal (λ outcome, match outcome with
                                   | Fulfilled value => value
                                   | Rejected r => r
                                   end)) in Heq.
        by cbv beta iota in Heq.
      * intros [[= ] | [(r & [= <-] & _ & ->) | (r & [= <-] & Hstatus & _)]];
          [done |]. apply Hok in Hstatus. done.
Qed.
